(** * PDF Facts Analyzer: the snippet-matching engine of [backend/app.py]

  A shallow embedding of [compute_similarity], [find_snippets] and
  [build_response_entry], together with the parts of the Python runtime
  they call ([str.lower], [str.strip], the [in] operator on strings,
  [list.sort], the two regular expressions and
  [difflib.SequenceMatcher.ratio]).

  Conventions.
  - A Python [str] is a [list ascii]; the 256 values of [ascii] stand for
    the code points U+0000..U+00FF, with the Unicode properties Python
    gives them (whitespace, case, word characters).
  - A Python [int] is a [Z]; [None] is the [None] of [option].
  - A Python [float] is idealised as an exact rational [Q]: sums and
    quotients are not rounded, and [format(x, ".2f")] rounds the exact
    value. *)

From Stdlib Require Import ZArith QArith Ascii String List Lia Permutation Sorted.
From stdpp Require Import base list gmap strings pretty.

Open Scope Z_scope.

Abbreviation str := (list ascii).

(** A string literal as a Python [str]. *)
Definition pystr (s : string) : str := list_ascii_of_string s.

(* ===================================================================== *)
(** ** Python built-ins *)
(* ===================================================================== *)

Module Py.

Definition code (c : ascii) : Z := Z.of_N (N_of_ascii c).

Definition between (lo hi x : Z) : bool := (lo <=? x) && (x <=? hi).

(** [str.isspace] on one character: TAB..CR, FS..US, SPACE, NEL, NBSP. *)
Definition isspace (c : ascii) : bool :=
  let n := code c in
  between 9 13 n || between 28 32 n || (n =? 133) || (n =? 160).

(** [str.lower] on one character: A..Z and the capital letters
    U+00C0..U+00DE (the multiplication sign U+00D7 apart) move up by 32. *)
Definition lower_char (c : ascii) : ascii :=
  let n := code c in
  if between 65 90 n || (between 192 222 n && negb (n =? 215))
  then ascii_of_N (Z.to_N (n + 32))
  else c.

(** The class [\w] of [re] on [str] patterns: alphanumeric or underscore. *)
Definition isword (c : ascii) : bool :=
  let n := code c in
  between 48 57 n || between 65 90 n || (n =? 95) || between 97 122 n
  || (n =? 170) || (n =? 178) || (n =? 179) || (n =? 181) || (n =? 185)
  || (n =? 186) || between 188 190 n
  || between 192 214 n || between 216 246 n || between 248 255 n.

Definition lower (s : str) : str := map lower_char s.

Fixpoint lstrip (s : str) : str :=
  match s with
  | c :: s' => if isspace c then lstrip s' else s
  | [] => []
  end.

Definition rstrip (s : str) : str := rev (lstrip (rev s)).

(** [s.strip()] *)
Definition strip (s : str) : str := rstrip (lstrip s).

(** [s[lo:hi]] for [0 <= lo] and [0 <= hi] (indices beyond the end are
    clipped, as Python does). *)
Definition slice (s : str) (lo hi : Z) : str :=
  take (Z.to_nat hi - Z.to_nat lo)%nat (drop (Z.to_nat lo) s).

Fixpoint startswith (s t : str) : bool :=
  match t, s with
  | [], _ => true
  | c :: t', d :: s' => if ascii_dec c d then startswith s' t' else false
  | _ :: _, [] => false
  end.

(** [t in s]: [t] occurs in [s] as a contiguous substring. *)
Fixpoint contains (s t : str) : bool :=
  startswith s t ||
  match s with
  | [] => false
  | _ :: s' => contains s' t
  end.

(** [l[:k]] for a Python int [k]: a negative [k] counts from the end. *)
Definition prefix_slice {A} (l : list A) (k : Z) : list A :=
  if 0 <=? k then take (Z.to_nat k) l
  else take (Z.to_nat (Z.of_nat (length l) + k)) l.

(** [list.sort] is stable: elements are reordered only when the order
    says so.  [before y x] says that [y] must come strictly before [x];
    [insert] puts [x] in front of the first element that need not
    precede it, so [sort] keeps equal elements in their original order.
    The result of a stable sort is determined by the input and the
    order, so this insertion sort returns what Python's sort returns. *)
Section Sort.
Context {A : Type} (before : A -> A -> bool).

Fixpoint insert (x : A) (l : list A) : list A :=
  match l with
  | [] => [x]
  | y :: l' => if before y x then y :: insert x l' else x :: l
  end.

Definition sort (l : list A) : list A := foldr insert [] l.
End Sort.

(** [l.sort(key=key)] for integer keys. *)
Definition sort_by_int {A} (key : A -> Z) : list A -> list A :=
  sort (fun y x => key y <? key x).

(** [l.sort(key=key, reverse=True)] for float keys: descending, and still
    stable. *)
Definition sort_by_float_reverse {A} (key : A -> Q) : list A -> list A :=
  sort (fun y x => negb (Qle_bool (key y) (key x))).

(** Round to the nearest integer, ties to the even one. *)
Definition round_half_even (q : Q) : Z :=
  let n := Qnum q in
  let d := Z.pos (Qden q) in
  let f := n / d in
  let r := 2 * (n mod d) in
  if r <? d then f
  else if d <? r then f + 1
  else if Z.even f then f else f + 1.

(** [format(x, ".2f")]: sign, integer part, a point and two decimals. *)
Definition format_2f (x : Q) : str :=
  let h := round_half_even (x * 100) in
  let a := Z.abs h in
  let cents := a mod 100 in
  pystr (if Qnum x <? 0 then "-" else "")
    ++ pystr (pretty (a / 100)) ++ pystr "."
    ++ pystr (if cents <? 10 then "0" else "") ++ pystr (pretty cents).

End Py.

(* ===================================================================== *)
(** ** The two regular expressions *)
(* ===================================================================== *)

Module Re.

(** A match object: the string searched and the span matched. *)
Record Match := { string_ : str; start : Z; end_ : Z }.

(** [m.group()] is [m.string[m.start():m.end()]]. *)
Definition group (m : Match) : str := Py.slice (string_ m) (start m) (end_ m).

Definition member (c : ascii) (cls : list ascii) : bool :=
  existsb (fun d => if ascii_dec c d then true else false) cls.

(** [finditer] for a pattern of the shape [[^excl]+[term]?] where every
    character of [term] is in [excl].  The scan is at [pos]; [open] is the
    start of the match in progress, if any.  A character outside [excl]
    extends (or starts) the match: [+] is greedy.  A character of [excl]
    ends it, and is taken into the match when it is in [term]; the scan
    goes on after the match.  With no match in progress a character of
    [excl] matches nothing and is skipped. *)
Fixpoint scan (excl term : list ascii) (pos : Z) (open : option Z) (s : str)
  : list (Z * Z) :=
  match s with
  | [] => match open with Some b => [(b, pos)] | None => [] end
  | c :: s' =>
      if member c excl then
        match open with
        | Some b =>
            if member c term
            then (b, pos + 1) :: scan excl term (pos + 1) None s'
            else (b, pos) :: scan excl term (pos + 1) None s'
        | None => scan excl term (pos + 1) None s'
        end
      else scan excl term (pos + 1) (Some (default pos open)) s'
  end.

Definition finditer (excl term : list ascii) (s : str) : list Match :=
  map (fun '(b, e) => {| string_ := s; start := b; end_ := e |})
      (scan excl term 0 None s).

(** [re.findall(r"\w+", s)]: the maximal runs of word characters.  [cur]
    is the run in progress, most recent character first. *)
Fixpoint findall_word_from (cur : str) (s : str) : list str :=
  match s with
  | [] => match cur with [] => [] | _ => [rev cur] end
  | c :: s' =>
      if Py.isword c then findall_word_from (c :: cur) s'
      else match cur with
           | [] => findall_word_from [] s'
           | _ => rev cur :: findall_word_from [] s'
           end
  end.

Definition findall_word (s : str) : list str := findall_word_from [] s.

End Re.

(* ===================================================================== *)
(** ** [difflib.SequenceMatcher(None, a, b)] *)
(* ===================================================================== *)

(** The class of the Python standard library, after [Lib/difflib.py] of
    CPython: [__chain_b], [find_longest_match], [get_matching_blocks] and
    [ratio], for [isjunk = None].  Loops are run on [fuel], and a function
    returns [None] where the Python code would raise or where the fuel
    would not do; [get_matching_blocks_found] shows that this never
    happens. *)
Module Difflib.

(** A [Match(a, b, size)] triple. *)
Abbreviation Block := (Z * Z * Z)%type.

(** [s[i]]: a negative index counts from the end; [None] stands for an
    [IndexError]. *)
Definition getitem (s : str) (i : Z) : option ascii :=
  let n := Z.of_nat (length s) in
  if i <? 0 then (if 0 <=? n + i then s !! Z.to_nat (n + i) else None)
  else s !! Z.to_nat i.

(** The first loop of [__chain_b]: [b2j] maps each element of [b] to the
    list of its indices, in increasing order. *)
Fixpoint index_elements (i : Z) (b : str) (b2j : gmap ascii (list Z))
  : gmap ascii (list Z) :=
  match b with
  | [] => b2j
  | elt :: b' =>
      index_elements (i + 1) b' (<[elt := default [] (b2j !! elt) ++ [i]]> b2j)
  end.

(** [__chain_b] with [isjunk = None]: no element is junk; with [autojunk],
    when [b] has 200 elements or more, those that occur more than
    [n // 100 + 1] times are popular and lose their entry. *)
Definition chain_b (autojunk : bool) (b : str) : gmap ascii (list Z) :=
  let b2j := index_elements 0 b ∅ in
  let n := Z.of_nat (length b) in
  if autojunk && (200 <=? n) then
    let ntest := n / 100 + 1 in
    filter (fun p : ascii * list Z => Z.of_nat (length p.2) <= ntest) b2j
  else b2j.

(** [bjunk]: the junk elements; none here. *)
Definition bjunk : gset ascii := ∅.

Definition isbjunk (c : ascii) : bool := bool_decide (c ∈ bjunk).

(** The inner loop of [find_longest_match], over the indices [j] of [a[i]]
    in [b]. *)
Fixpoint scan_row (i blo bhi : Z) (j2len : gmap Z Z) (js : list Z)
    (newj2len : gmap Z Z) (best : Block) : gmap Z Z * Block :=
  match js with
  | [] => (newj2len, best)
  | j :: js' =>
      if j <? blo then scan_row i blo bhi j2len js' newj2len best
      else if bhi <=? j then (newj2len, best)
      else
        let k := default 0 (j2len !! (j - 1)) + 1 in
        let newj2len := <[j := k]> newj2len in
        let best := if best.2 <? k then (i - k + 1, j - k + 1, k) else best in
        scan_row i blo bhi j2len js' newj2len best
  end.

(** The outer loop of [find_longest_match], over [range(alo, ahi)].
    [None] stands for an exception, here the [IndexError] of [a[i]]. *)
Fixpoint scan_rows (a : str) (b2j : gmap ascii (list Z)) (blo bhi : Z)
    (rows : list Z) (j2len : gmap Z Z) (best : Block) : option Block :=
  match rows with
  | [] => Some best
  | i :: rows' =>
      match getitem a i with
      | None => None
      | Some c =>
          let '(newj2len, best) :=
            scan_row i blo bhi j2len (default [] (b2j !! c)) ∅ best in
          scan_rows a b2j blo bhi rows' newj2len best
      end
  end.

(** [while besti > alo and bestj > blo and isbjunk(b[bestj-1]) == junk and
    a[besti-1] == b[bestj-1]], the conditions tested from left to right.
    [None] is an [IndexError], or a loop that wants more than [fuel]
    turns. *)
Fixpoint extend_left (fuel : nat) (a b : str) (junk : bool) (alo blo : Z)
    (best : Block) : option Block :=
  let '(besti, bestj, bestsize) := best in
  if (alo <? besti) && (blo <? bestj) then
    match fuel with
    | O => None
    | S fuel' =>
        match getitem b (bestj - 1) with
        | None => None
        | Some d =>
            if eqb (isbjunk d) junk then
              match getitem a (besti - 1) with
              | None => None
              | Some c =>
                  if ascii_dec c d
                  then extend_left fuel' a b junk alo blo
                         (besti - 1, bestj - 1, bestsize + 1)
                  else Some best
              end
            else Some best
        end
    end
  else Some best.

(** [while besti+bestsize < ahi and bestj+bestsize < bhi and
    isbjunk(b[bestj+bestsize]) == junk and
    a[besti+bestsize] == b[bestj+bestsize]]. *)
Fixpoint extend_right (fuel : nat) (a b : str) (junk : bool) (ahi bhi : Z)
    (best : Block) : option Block :=
  let '(besti, bestj, bestsize) := best in
  if (besti + bestsize <? ahi) && (bestj + bestsize <? bhi) then
    match fuel with
    | O => None
    | S fuel' =>
        match getitem b (bestj + bestsize) with
        | None => None
        | Some d =>
            if eqb (isbjunk d) junk then
              match getitem a (besti + bestsize) with
              | None => None
              | Some c =>
                  if ascii_dec c d
                  then extend_right fuel' a b junk ahi bhi
                         (besti, bestj, bestsize + 1)
                  else Some best
              end
            else Some best
        end
    end
  else Some best.

(** The two loops that extend a block on both sides.  The first lowers
    [besti] down to [alo] at most, the second raises [besti + bestsize] up
    to [ahi] at most: the turns given are all they can take. *)
Definition extend (a b : str) (junk : bool) (alo ahi blo bhi : Z)
    (best : Block) : option Block :=
  best ← extend_left (Z.to_nat (best.1.1 - alo)) a b junk alo blo best;
  extend_right (Z.to_nat (ahi - (best.1.1 + best.2))) a b junk ahi bhi best.

(** [find_longest_match(alo, ahi, blo, bhi)]: the longest block found
    through [b2j], extended by non-junk and then by junk elements. *)
Definition find_longest_match (a b : str) (b2j : gmap ascii (list Z))
    (alo ahi blo bhi : Z) : option Block :=
  best ← scan_rows a b2j blo bhi (seqZ alo (ahi - alo)) ∅ (alo, blo, 0);
  best ← extend a b false alo ahi blo bhi best;
  extend a b true alo ahi blo bhi best.

Abbreviation Range := (Z * Z * Z * Z)%type.

(** The [while queue:] loop of [get_matching_blocks].  The head of [queue]
    is the end of the Python list, where [pop] and [append] work.  [None]
    when [find_longest_match] raises, or when [fuel] turns do not empty the
    queue. *)
Fixpoint blocks_loop (fuel : nat) (a b : str) (b2j : gmap ascii (list Z))
    (queue : list Range) (matching_blocks : list Block)
  : option (list Block) :=
  match fuel with
  | O => None
  | S fuel' =>
      match queue with
      | [] => Some matching_blocks
      | (alo, ahi, blo, bhi) :: queue =>
          match find_longest_match a b b2j alo ahi blo bhi with
          | None => None
          | Some (i, j, k) =>
              if k =? 0 then blocks_loop fuel' a b b2j queue matching_blocks
              else
                let queue :=
                  if (alo <? i) && (blo <? j) then (alo, i, blo, j) :: queue
                  else queue in
                let queue :=
                  if (i + k <? ahi) && (j + k <? bhi)
                  then (i + k, ahi, j + k, bhi) :: queue
                  else queue in
                blocks_loop fuel' a b b2j queue
                            (matching_blocks ++ [(i, j, k)])
          end
      end
  end.

(** The order of tuples: lexicographic. *)
Definition block_ltb (x y : Block) : bool :=
  let '(i1, j1, k1) := x in
  let '(i2, j2, k2) := y in
  (i1 <? i2) || ((i1 =? i2) && ((j1 <? j2) || ((j1 =? j2) && (k1 <? k2)))).

(** The loop that merges adjacent blocks: [cur] is [(i1, j1, k1)]. *)
Fixpoint collapse (cur : Block) (blocks non_adjacent : list Block)
  : list Block * Block :=
  match blocks with
  | [] => (non_adjacent, cur)
  | (i2, j2, k2) :: blocks' =>
      let '(i1, j1, k1) := cur in
      if (i1 + k1 =? i2) && (j1 + k1 =? j2)
      then collapse (i1, j1, k1 + k2) blocks' non_adjacent
      else collapse (i2, j2, k2) blocks'
             (if k1 =? 0 then non_adjacent else non_adjacent ++ [cur])
  end.

(** Turns of the queue loop that always suffice ([blocks_loop_ok]): a
    range of [n] characters of [a] takes one turn and leaves two ranges of
    fewer than [n] characters together. *)
Definition loop_fuel (a : str) : nat := (2 * length a + 2)%nat.

Definition get_matching_blocks (autojunk : bool) (a b : str)
  : option (list Block) :=
  let la := Z.of_nat (length a) in
  let lb := Z.of_nat (length b) in
  match blocks_loop (loop_fuel a) a b (chain_b autojunk b)
                    [(0, la, 0, lb)] [] with
  | None => None
  | Some matching_blocks =>
      let '(non_adjacent, cur) :=
        collapse (0, 0, 0) (Py.sort block_ltb matching_blocks) [] in
      let non_adjacent :=
        if cur.2 =? 0 then non_adjacent else non_adjacent ++ [cur] in
      Some (non_adjacent ++ [(la, lb, 0)])
  end.

(** [_calculate_ratio(matches, length)] *)
Definition calculate_ratio (matches length : Z) : Q :=
  if length =? 0 then 1%Q else (2 * inject_Z matches / inject_Z length)%Q.

Definition sum_sizes (blocks : list Block) : Z :=
  foldr (fun x acc => x.2 + acc) 0 blocks.

(** [ratio()].  [get_matching_blocks] returns for every pair of strings
    ([get_matching_blocks_total]), so the last branch is never taken. *)
Definition ratio (autojunk : bool) (a b : str) : Q :=
  match get_matching_blocks autojunk a b with
  | Some blocks =>
      calculate_ratio (sum_sizes blocks) (Z.of_nat (length a) + Z.of_nat (length b))
  | None => 0%Q
  end.

End Difflib.

(* ===================================================================== *)
(** ** [backend/app.py] *)
(* ===================================================================== *)

(** The dictionaries [find_snippets] builds. *)
Module Candidate.
Record t := { snippet : str; start : Z; end_ : Z; score : Q }.
End Candidate.

(** The dictionaries [load_pdf_pages] builds. *)
Module Page.
Record t := { page : Z; text : str }.
End Page.

(** The entries of ["matches"] in the payload of one pointer. *)
Module MatchEntry.
Record t := {
  snippet : str;
  page : option Z;
  start : option Z;
  end_ : option Z;
  rationale : str
}.
End MatchEntry.

(** The payload of one pointer. *)
Module PointerReport.
Record t := { pointer : str; matches : list MatchEntry.t }.
End PointerReport.

(** The generator expression of [compute_similarity] under [sum]. *)
Definition keyword_hits (sentence pointer : str) : nat :=
  length (List.filter (fun token => Py.contains (Py.lower sentence) token)
                      (Re.findall_word (Py.lower pointer))).

(** [compute_similarity(sentence, pointer)]; [SequenceMatcher] is called
    with its default [autojunk = True]. *)
Definition compute_similarity (sentence pointer : str) : Q :=
  let ratio := Difflib.ratio true (Py.lower sentence) (Py.lower pointer) in
  (ratio + (1 # 10) * inject_Z (Z.of_nat (keyword_hits sentence pointer)))%Q.

(** The characters listed in the class [[^.!?\\n]] of the raw pattern
    [r"[^.!?\\n]+[.!?]?"]: in a raw string [\\] is an escaped backslash and
    [n] is the letter. *)
Definition sentence_excluded : list ascii := pystr ".!?\n".

(** The characters of the class [[.!?]]. *)
Definition sentence_terminators : list ascii := pystr ".!?".

(** The body of the loop of [find_snippets], for one match: [None] is
    [continue]. *)
Definition candidate_of (pointer : str) (m : Re.Match) : option Candidate.t :=
  let sentence := Py.strip (Re.group m) in
  match sentence with
  | [] => None
  | _ =>
      Some {| Candidate.snippet := sentence;
              Candidate.start := Re.start m;
              Candidate.end_ := Re.end_ m;
              Candidate.score := compute_similarity sentence pointer |}
  end.

Definition candidates (page_text pointer : str) : list Candidate.t :=
  omap (candidate_of pointer)
       (Re.finditer sentence_excluded sentence_terminators page_text).

(** [find_snippets(page_text, pointer, max_snippets)] *)
Definition find_snippets (page_text pointer : str) (max_snippets : Z)
  : list Candidate.t :=
  Py.prefix_slice
    (Py.sort_by_float_reverse Candidate.score (candidates page_text pointer))
    max_snippets.

(** The f-string of [build_response_entry]. *)
Definition rationale_of (pointer : str) (score : Q) : str :=
  pystr "Sentence matched pointer '" ++ pointer
    ++ pystr "' with similarity " ++ Py.format_2f score ++ pystr ".".

Definition entry_of (pointer : str) (page : Page.t) (snippet : Candidate.t)
  : MatchEntry.t :=
  {| MatchEntry.snippet := Candidate.snippet snippet;
     MatchEntry.page := Some (Page.page page);
     MatchEntry.start := Some (Candidate.start snippet);
     MatchEntry.end_ := Some (Candidate.end_ snippet);
     MatchEntry.rationale := rationale_of pointer (Candidate.score snippet) |}.

(** The entry returned when no page gave a snippet. *)
Definition no_match_entry : MatchEntry.t :=
  {| MatchEntry.snippet := [];
     MatchEntry.page := None;
     MatchEntry.start := None;
     MatchEntry.end_ := None;
     MatchEntry.rationale := pystr "No matching text found for the pointer." |}.

(** The two nested loops of [build_response_entry]; [find_snippets] is
    called with its default [max_snippets = 2]. *)
Definition collect_matches (pointer : str) (pages : list Page.t)
  : list MatchEntry.t :=
  flat_map (fun page =>
              map (entry_of pointer page)
                  (find_snippets (Page.text page) pointer 2))
           pages.

(** The sort key [item["page"] if item["page"] is not None else 1_000_000]. *)
Definition page_key (item : MatchEntry.t) : Z :=
  match MatchEntry.page item with
  | Some p => p
  | None => 1000000
  end.

(** [build_response_entry(pointer, pages)] *)
Definition build_response_entry (pointer : str) (pages : list Page.t)
  : PointerReport.t :=
  let matches := collect_matches pointer pages in
  match matches with
  | [] =>
      {| PointerReport.pointer := pointer;
         PointerReport.matches := [no_match_entry] |}
  | _ =>
      {| PointerReport.pointer := pointer;
         PointerReport.matches := Py.sort_by_int page_key matches |}
  end.

(** The ["pointers"] field of the payload of [extract_facts]: one report
    per pointer, in the order of [pointer_list]. *)
Definition analyze_document (pages : list Page.t) (pointer_list : list str)
  : list PointerReport.t :=
  map (fun pointer => build_response_entry pointer pages) pointer_list.

(** [x or ""] for the result [x] of [page.extract_text()], a [str] or
    [None]: [None] and the empty string are false. *)
Definition or_empty (x : option str) : str :=
  match x with
  | Some (c :: s) => c :: s
  | Some [] => []
  | None => []
  end.

(** The loop of [load_pdf_pages] over [enumerate(reader.pages, start=idx)];
    a page of the reader is given by what its [extract_text()] returns. *)
Fixpoint load_pages_from (idx : Z) (extracted : list (option str))
  : list Page.t :=
  match extracted with
  | [] => []
  | text :: rest =>
      {| Page.page := idx; Page.text := or_empty text |}
        :: load_pages_from (idx + 1) rest
  end.

(** [load_pdf_pages(pdf_path)], on the pages that [PdfReader] reads from
    the file. *)
Definition load_pdf_pages (extracted : list (option str)) : list Page.t :=
  load_pages_from 1 extracted.

Unset Elimination Schemes.


Set Elimination Schemes.


(** The payload of [extract_facts]. *)
Module Payload.
Record t := {
  fileName : str;
  storedPath : str;
  pointers : list PointerReport.t
}.
End Payload.



(* ===================================================================== *)
(** ** [backend/sample_data/generate_sample_pdf.py] *)
(* ===================================================================== *)

(** [build_pdf_bytes].  The strings hold characters below U+0100 only, so
    [encode("latin-1")] gives one byte for each character, with the same
    code: a [bytes] value is the list of its characters, and the [len] of
    the encoded string is the length of the string. *)
Module SamplePdf.

(** The newline of the string literals. *)
Definition nl : str := ["010"%char].

(** [sep.join(parts)] *)
Definition join (sep : str) (parts : list str) : str :=
  match parts with
  | [] => []
  | p :: rest => p ++ concat (map (fun q => sep ++ q) rest)
  end.

(** [f"{n}"] for an int. *)
Definition decimal (n : Z) : str := pystr (pretty n).


Definition content_ops : list str :=
  [ pystr "BT";
    pystr "/F1 18 Tf";
    pystr "72 740 Td";
    pystr "(Contract between Northwind LLC and Contoso Inc.) Tj";
    pystr "0 -22 Td (Effective date: 2023-10-10.) Tj";
    pystr "0 -22 Td (Services: Systems integration and analytics delivery.) Tj";
    pystr "0 -22 Td (Total contract value: $250,000 split across milestones.) Tj";
    pystr "0 -22 Td (Key contact: Jane Doe, Procurement Lead.) Tj";
    pystr "0 -22 Td (Signed by: Alice Smith on behalf of Northwind.) Tj";
    pystr "0 -22 Td (Signed by: Bob Johnson on behalf of Contoso.) Tj";
    pystr "ET" ].

Definition content_stream : str := join nl content_ops.

Definition content_bytes : str := content_stream.

(** [add_object(obj_id, body)] appends to [objects]. *)
Definition add_object (objects : list str) (obj_id : Z) (body : str)
  : list str :=
  objects
  ++ [decimal obj_id ++ pystr " 0 obj" ++ nl ++ body ++ nl ++ pystr "endobj" ++ nl].

(** [objects] after the five calls of [add_object]. *)
Definition objects : list str :=
  let objects := [] in
  let objects :=
    add_object objects 1 (pystr "<< /Type /Catalog /Pages 2 0 R >>") in
  let objects :=
    add_object objects 2 (pystr "<< /Type /Pages /Kids [3 0 R] /Count 1 >>") in
  let objects :=
    add_object objects 3
      (pystr "<< /Type /Page /Parent 2 0 R /MediaBox [0 0 612 792] /Contents 4 0 R "
       ++ pystr "/Resources << /Font << /F1 5 0 R >> >> >>") in
  let objects :=
    add_object objects 4
      (pystr "<< /Length " ++ decimal (Z.of_nat (length content_bytes))
       ++ pystr " >>" ++ nl ++ pystr "stream" ++ nl ++ content_stream ++ nl
       ++ pystr "endstream") in
  add_object objects 5
    (pystr "<< /Type /Font /Subtype /Type1 /BaseFont /Helvetica >>").








End SamplePdf.

(* ===================================================================== *)
(** ** Vocabulary of the statements *)
(* ===================================================================== *)

(** The text of a match of [[^excl]+[term]?]: a non-empty run of characters
    outside [excl], then at most one character of [term]. *)
Definition sentence_shape (excl term : list ascii) (g : str) : Prop :=
  exists run t,
    g = run ++ t /\ run <> [] /\
    Forall (fun c => Re.member c excl = false) run /\
    (t = [] \/ exists c, t = [c] /\ Re.member c term = true).

(** Where the characters of a snippet may stand: a sentence terminator only
    at the end, a backslash or the letter [n] nowhere. *)
Definition snippet_characters_ok (snippet : str) : Prop :=
  forall (i : nat) (ch : ascii),
    snippet !! i = Some ch ->
    (ch = "."%char \/ ch = "!"%char \/ ch = "?"%char ->
     S i = length snippet) /\
    ch <> "\"%char /\ ch <> "n"%char.

(** The segmentation in the words of the spec: maximal runs of characters
    other than the terminators [.], [!] and [?], each with at most one
    terminator after it. *)
Definition spec_sentences (page_text : str) : list Re.Match :=
  Re.finditer sentence_terminators sentence_terminators page_text.

(** A match as [(start, end, stripped text)]. *)
Definition span_and_text (m : Re.Match) : Z * Z * string :=
  (Re.start m, Re.end_ m, string_of_list_ascii (Py.strip (Re.group m))).

(** The entries of page number [n]. *)
Definition on_page (n : Z) (m : MatchEntry.t) : bool :=
  match MatchEntry.page m with
  | Some p => p =? n
  | None => false
  end.


(** [n] copies of the word [a], each followed by a space. *)
Fixpoint repeated_word (n : nat) : str :=
  match n with
  | O => []
  | S n' => pystr "a " ++ repeated_word n'
  end.

(** [a[i:i+k]] and [b[j:j+k]] lie in [a[alo:ahi]] and [b[blo:bhi]] and hold
    the same characters. *)
Definition block_in (a b : str) (alo ahi blo bhi : Z) (x : Difflib.Block) : Prop :=
  let '(i, j, k) := x in
  0 <= k /\ alo <= i /\ i + k <= ahi /\ blo <= j /\ j + k <= bhi /\
  forall t, 0 <= t < k ->
    exists c, Difflib.getitem a (i + t) = Some c /\
              Difflib.getitem b (j + t) = Some c.

(** A block of matching characters of [a] and [b]. *)
Definition common_block (a b : str) (x : Difflib.Block) : Prop :=
  block_in a b 0 (Z.of_nat (length a)) 0 (Z.of_nat (length b)) x.

(** A range of the queue of [get_matching_blocks]. *)
Definition range_ok (a b : str) (r : Difflib.Range) : Prop :=
  let '(alo, ahi, blo, bhi) := r in
  0 <= alo <= ahi /\ ahi <= Z.of_nat (length a) /\
  0 <= blo <= bhi /\ bhi <= Z.of_nat (length b).

(** [b2j] lists positions of [b] only, each under the character found
    there. *)
Definition b2j_ok (b : str) (b2j : gmap ascii (list Z)) : Prop :=
  forall c js j, b2j !! c = Some js -> j ∈ js ->
    0 <= j /\ Difflib.getitem b j = Some c.

(** [b2j] lists, for every character, all its positions in [b], in
    increasing order: no element was dropped as popular. *)
Definition b2j_complete (b : str) (b2j : gmap ascii (list Z)) : Prop :=
  forall c,
    StronglySorted Z.lt (default [] (b2j !! c)) /\
    forall j, 0 <= j -> Difflib.getitem b j = Some c ->
              j ∈ default [] (b2j !! c).

(** The table [j2len] after row [i]: an entry [j : k] records that the [k]
    characters ending at [a[i]] and at [b[j]] are the same. *)
Definition row_ok (a b : str) (alo blo bhi i : Z) (j2len : gmap Z Z) : Prop :=
  forall j k, j2len !! j = Some k ->
    1 <= k /\ block_in a b alo (i + 1) blo bhi (i - k + 1, j - k + 1, k).


(** What bounds the turns the queue loop still takes. *)
Definition queue_turns (queue : list Difflib.Range) : Z :=
  foldr (fun r acc => let '(alo, ahi, _, _) := r in 2 * (ahi - alo) + 1 + acc)
        0 queue.

(** What bounds the characters the queue loop can still match. *)
Definition queue_room (queue : list Difflib.Range) : Z :=
  foldr (fun r acc =>
           let '(alo, ahi, blo, bhi) := r in
           Z.min (ahi - alo) (bhi - blo) + acc)
        0 queue.



(** A pointer of 237 characters, in the style of the sample contract. *)
Definition delivery_pointer : str :=
  pystr "the supplier shall deliver the goods to the buyer at the agreed place of delivery "
  ++ pystr "and the buyer shall pay the price of the goods to the supplier within thirty days "
  ++ pystr "of the date of the invoice issued by the supplier for the goods delivered".

(** The [k] characters of [a] that end at [a[i]] all have an entry in
    [b2j]: none of them was dropped as popular. *)
Definition indexed_run (a : str) (b2j : gmap ascii (list Z)) (i k : Z) : Prop :=
  forall t, 0 <= t < k ->
    exists c, Difflib.getitem a (i - t) = Some c /\ is_Some (b2j !! c).

(** The table [j2len] after row [i] when a string is compared with itself:
    an entry [j : k] stands for [k] indexed characters that end at [a[i]]
    and at [a[j]]. *)
Definition diag_entries (a : str) (b2j : gmap ascii (list Z)) (i : Z)
    (j2len : gmap Z Z) : Prop :=
  forall j k, j2len !! j = Some k ->
    1 <= k <= i + 1 /\ k <= j + 1 /\
    indexed_run a b2j i k /\ indexed_run a b2j j k.

(** The entry of the diagonal, [j = i], is there, and [best] is as long:
    both cover every run of indexed characters that ends at [a[i]]. *)
Definition diag_done (a : str) (b2j : gmap ascii (list Z)) (i : Z)
    (j2len : gmap Z Z) (best : Difflib.Block) : Prop :=
  forall k, 1 <= k <= i + 1 -> indexed_run a b2j i k ->
    (exists k0, j2len !! i = Some k0 /\ k <= k0) /\ k <= best.2.

(** [best] lies on the diagonal, and is as long as every run of indexed
    characters that ends before row [i0]. *)
Definition diag_best (a : str) (b2j : gmap ascii (list Z)) (i0 : Z)
    (best : Difflib.Block) : Prop :=
  best.1.1 = best.1.2 /\ 0 <= best.2 /\
  forall i k, 0 <= i < i0 -> 1 <= k <= i + 1 -> indexed_run a b2j i k ->
              k <= best.2.

(* ===================================================================== *)
(** * Properties *)
(* ===================================================================== *)

(** ** The stable sort *)

Section SortFacts.
Context {A : Type} (before : A -> A -> bool).

Lemma insert_Permutation (x : A) (l : list A) :
  Permutation (Py.insert before x l) (x :: l).
Proof.
  induction l as [|y l IH]; simpl; [reflexivity|].
  destruct (before y x); [|reflexivity].
  rewrite IH. apply perm_swap.
Qed.

Lemma sort_Permutation (l : list A) : Permutation (Py.sort before l) l.
Proof.
  induction l as [|x l IH]; simpl; [reflexivity|].
  rewrite insert_Permutation. now constructor.
Qed.

Lemma sort_nil_inv (l : list A) : Py.sort before l = [] -> l = [].
Proof.
  intros H. apply Permutation_nil. rewrite <- H.
  apply sort_Permutation.
Qed.

(** Elements that the order does not separate keep their places relative to
    one another. *)
Lemma insert_stable (P : A -> bool) (x : A) (l : list A) :
  (forall y z, P y = true -> P z = true -> before y z = false) ->
  List.filter P (Py.insert before x l) = List.filter P (x :: l).
Proof.
  intros HP. induction l as [|y l IH]; [reflexivity|].
  cbn [Py.insert]. destruct (before y x) eqn:Hyx; [|reflexivity].
  cbn [List.filter] in *. rewrite IH.
  destruct (P y) eqn:Py, (P x) eqn:Px; try reflexivity.
  rewrite (HP y x Py Px) in Hyx. discriminate.
Qed.

Lemma sort_stable (P : A -> bool) (l : list A) :
  (forall y z, P y = true -> P z = true -> before y z = false) ->
  List.filter P (Py.sort before l) = List.filter P l.
Proof.
  intros HP. induction l as [|x l IH]; [reflexivity|].
  cbn [Py.sort foldr]. fold (Py.sort before l).
  rewrite insert_stable by exact HP.
  cbn [List.filter]. now rewrite IH.
Qed.

(** No element of the result has to come before an earlier one, when the
    order is asymmetric and its complement transitive. *)
Hypothesis before_asym : forall x y, before x y = true -> before y x = false.
Hypothesis before_negtrans :
  forall x y z, before x y = false -> before y z = false -> before x z = false.



End SortFacts.

(** ** Slices and [strip] *)

Lemma slice_app (pre rest : str) (b : Z) (n : nat) :
  0 <= b <= Z.of_nat (length pre) ->
  Py.slice (pre ++ rest) b (Z.of_nat (length pre) + Z.of_nat n)
  = drop (Z.to_nat b) pre ++ take n rest.
Proof.
  intros Hb. unfold Py.slice.
  rewrite drop_app_le by lia.
  rewrite take_app_ge by (rewrite length_drop; lia).
  rewrite length_drop.
  f_equal. f_equal. lia.
Qed.

Lemma lstrip_suffix (s : str) : exists p, s = p ++ Py.lstrip s.
Proof.
  induction s as [|c s [p Hp]]; simpl.
  - now exists [].
  - destruct (Py.isspace c).
    + exists (c :: p). simpl. now f_equal.
    + now exists [].
Qed.

(** [strip] keeps a contiguous part of the string. *)
Lemma strip_infix (s : str) : exists p q, s = p ++ Py.strip s ++ q.
Proof.
  unfold Py.strip, Py.rstrip.
  destruct (lstrip_suffix s) as [p Hp].
  destruct (lstrip_suffix (rev (Py.lstrip s))) as [q Hq].
  exists p, (rev q).
  rewrite <- rev_app_distr, <- Hq, rev_involutive. exact Hp.
Qed.

(** ** The sentence scanner *)

Lemma scan_spans (excl term : list ascii) (s : str) :
  forall (pre : str) (open : option Z),
    match open with
    | Some b0 =>
        0 <= b0 < Z.of_nat (length pre) /\
        Forall (fun c => Re.member c excl = false) (drop (Z.to_nat b0) pre)
    | None => True
    end ->
    forall b e,
      (b, e) ∈ Re.scan excl term (Z.of_nat (length pre)) open s ->
      0 <= b < e /\ e <= Z.of_nat (length (pre ++ s)) /\
      sentence_shape excl term (Py.slice (pre ++ s) b e).
Proof.
  induction s as [|c s IH]; intros pre open Hopen b e Hin.
  - destruct open as [b0|]; simpl in Hin; [|inversion Hin].
    apply list_elem_of_singleton in Hin. injection Hin as -> ->.
    destruct Hopen as [Hb0 Hrun].
    rewrite app_nil_r. split; [lia|]. split; [lia|].
    replace (Z.of_nat (length pre)) with (Z.of_nat (length pre) + Z.of_nat 0) by lia.
    rewrite <- (app_nil_r pre) at 1. rewrite slice_app by lia.
    exists (drop (Z.to_nat b0) pre), []. simpl. rewrite app_nil_r.
    repeat split; auto.
    intros Hnil. apply (f_equal length) in Hnil.
    rewrite length_drop in Hnil. simpl in Hnil. lia.
  - assert (Hstep : forall open',
      match open' with
      | Some b0 =>
          0 <= b0 < Z.of_nat (length (pre ++ [c])) /\
          Forall (fun c => Re.member c excl = false)
                 (drop (Z.to_nat b0) (pre ++ [c]))
      | None => True
      end ->
      (b, e) ∈ Re.scan excl term (Z.of_nat (length pre) + 1) open' s ->
      0 <= b < e /\ e <= Z.of_nat (length (pre ++ c :: s)) /\
      sentence_shape excl term (Py.slice (pre ++ c :: s) b e)).
    { intros open' Hopen' Hin'.
      replace (pre ++ c :: s) with ((pre ++ [c]) ++ s)
        by (now rewrite <- app_assoc).
      apply (IH (pre ++ [c]) open' Hopen').
      rewrite length_app. simpl.
      replace (Z.of_nat (length pre + 1)) with (Z.of_nat (length pre) + 1) by lia.
      exact Hin'. }
    simpl in Hin. destruct (Re.member c excl) eqn:Hc.
    + destruct open as [b0|]; [|now apply (Hstep None)].
      destruct Hopen as [Hb0 Hrun].
      destruct (Re.member c term) eqn:Ht;
        apply elem_of_cons in Hin as [Hin|Hin];
        try (now apply (Hstep None)); injection Hin as -> ->.
      * rewrite length_app. simpl. split; [lia|]. split; [lia|].
        replace (Z.of_nat (length pre) + 1)
          with (Z.of_nat (length pre) + Z.of_nat 1) by lia.
        rewrite slice_app by lia. simpl.
        exists (drop (Z.to_nat b0) pre), [c].
        repeat split; eauto.
        intros Hnil. apply (f_equal length) in Hnil.
        rewrite length_drop in Hnil. simpl in Hnil. lia.
      * rewrite length_app. simpl. split; [lia|]. split; [lia|].
        replace (Z.of_nat (length pre))
          with (Z.of_nat (length pre) + Z.of_nat 0) at 1 by lia.
        rewrite slice_app by lia. simpl. rewrite app_nil_r.
        exists (drop (Z.to_nat b0) pre), []. rewrite app_nil_r.
        repeat split; auto.
        intros Hnil. apply (f_equal length) in Hnil.
        rewrite length_drop in Hnil. simpl in Hnil. lia.
    + apply (Hstep (Some (default (Z.of_nat (length pre)) open))); [|exact Hin].
      rewrite length_app. simpl.
      destruct open as [b0|]; simpl.
      * destruct Hopen as [Hb0 Hrun]. split; [lia|].
        rewrite drop_app_le by lia. apply Forall_app. split; [exact Hrun|].
        now repeat constructor.
      * split; [lia|]. rewrite Nat2Z.id, drop_app_length.
        now repeat constructor.
Qed.

(** Every match of [finditer] lies inside the text and has the shape of the
    pattern. *)
Lemma finditer_spec (excl term : list ascii) (s : str) (m : Re.Match) :
  m ∈ Re.finditer excl term s ->
  Re.string_ m = s /\
  0 <= Re.start m < Re.end_ m /\ Re.end_ m <= Z.of_nat (length s) /\
  sentence_shape excl term (Re.group m).
Proof.
  unfold Re.finditer. intros Hin.
  apply list_elem_of_fmap in Hin as [[b e] [-> Hin]].
  apply (scan_spans excl term s [] None I) in Hin.
  unfold Re.group. simpl in *. tauto.
Qed.

(** ** Candidates of one page *)

Lemma candidate_of_spec (pointer : str) (m : Re.Match) (c : Candidate.t) :
  candidate_of pointer m = Some c ->
  Candidate.snippet c = Py.strip (Re.group m) /\
  Candidate.snippet c <> [] /\
  Candidate.start c = Re.start m /\
  Candidate.end_ c = Re.end_ m /\
  Candidate.score c = compute_similarity (Candidate.snippet c) pointer.
Proof.
  unfold candidate_of. destruct (Py.strip (Re.group m)) eqn:Hs; [discriminate|].
  intros [= <-]. simpl. repeat split; congruence.
Qed.

Lemma candidates_spec (page_text pointer : str) (c : Candidate.t) :
  c ∈ candidates page_text pointer <->
  exists m,
    m ∈ Re.finditer sentence_excluded sentence_terminators page_text /\
    candidate_of pointer m = Some c.
Proof. unfold candidates. apply list_elem_of_omap. Qed.

Lemma prefix_slice_take {A} (l : list A) (k : Z) :
  exists n, Py.prefix_slice l k = take n l /\ (0 <= k -> n = Z.to_nat k).
Proof.
  unfold Py.prefix_slice. destruct (0 <=? k) eqn:Hk.
  - eexists. split; [reflexivity|]. reflexivity.
  - eexists. split; [reflexivity|]. lia.
Qed.

Lemma elem_of_prefix_slice {A} (l : list A) (k : Z) (x : A) :
  x ∈ Py.prefix_slice l k -> x ∈ l.
Proof.
  destruct (prefix_slice_take l k) as [n [-> _]]. apply subseteq_take.
Qed.

Lemma find_snippets_candidates (page_text pointer : str) (k : Z) (c : Candidate.t) :
  c ∈ find_snippets page_text pointer k -> c ∈ candidates page_text pointer.
Proof.
  unfold find_snippets, Py.sort_by_float_reverse. intros Hin.
  apply elem_of_prefix_slice in Hin.
  now rewrite sort_Permutation in Hin.
Qed.

(** With the default [max_snippets = 2], [find_snippets] is empty exactly
    when the page has no candidate. *)
Lemma find_snippets_default_nil (page_text pointer : str) :
  find_snippets page_text pointer 2 = [] <-> candidates page_text pointer = [].
Proof.
  unfold find_snippets, Py.sort_by_float_reverse, Py.prefix_slice. simpl.
  split.
  - intros H. apply (sort_nil_inv (fun y x => negb (Qle_bool (Candidate.score y) (Candidate.score x)))).
    destruct (Py.sort _ _); [reflexivity|discriminate].
  - now intros ->.
Qed.

Lemma candidates_empty_text (pointer : str) : candidates [] pointer = [].
Proof. reflexivity. Qed.

Lemma StronglySorted_weaken {A} (R S : A -> A -> Prop) (l : list A) :
  (forall x y, R x y -> S x y) -> StronglySorted R l -> StronglySorted S l.
Proof.
  intros HRS. induction 1 as [|x l Hl IH Hx]; constructor; [exact IH|].
  eapply Forall_impl; [exact Hx|]. intros y. apply HRS.
Qed.






(** ** [difflib]: the blocks found are blocks of matching characters *)

Lemma getitem_nonneg (s : str) (i : Z) :
  0 <= i -> Difflib.getitem s i = s !! Z.to_nat i.
Proof.
  intros Hi. unfold Difflib.getitem.
  destruct (i <? 0) eqn:E; [lia|reflexivity].
Qed.

Lemma block_in_weaken (a b : str) (alo ahi ahi' blo bhi : Z) (x : Difflib.Block) :
  ahi <= ahi' -> block_in a b alo ahi blo bhi x -> block_in a b alo ahi' blo bhi x.
Proof.
  destruct x as [[i j] k]. unfold block_in. intros Hle H.
  repeat split; try lia; apply H.
Qed.

Lemma index_elements_ok (b' : str) :
  forall (pre : str) (b2j : gmap ascii (list Z)),
    b2j_ok (pre ++ b') b2j ->
    b2j_ok (pre ++ b') (Difflib.index_elements (Z.of_nat (length pre)) b' b2j).
Proof.
  induction b' as [|elt b' IH]; intros pre b2j Hok; [exact Hok|].
  simpl. replace (pre ++ elt :: b') with ((pre ++ [elt]) ++ b') in *
    by (now rewrite <- app_assoc).
  replace (Z.of_nat (length pre) + 1) with (Z.of_nat (length (pre ++ [elt])))
    by (rewrite length_app; simpl; lia).
  apply IH. intros c js j Hc Hj.
  destruct (decide (elt = c)) as [->|Hne].
  - rewrite lookup_insert_eq in Hc. injection Hc as <-.
    apply elem_of_app in Hj as [Hj|Hj].
    + destruct (b2j !! c) as [js0|] eqn:E; simpl in Hj; [|inversion Hj].
      exact (Hok c js0 j E Hj).
    + apply list_elem_of_singleton in Hj as ->. split; [lia|].
      rewrite getitem_nonneg by lia. rewrite Nat2Z.id.
      rewrite <- app_assoc. simpl. now rewrite list_lookup_middle.
  - rewrite lookup_insert_ne in Hc by exact Hne. exact (Hok c js j Hc Hj).
Qed.

Lemma chain_b_ok (autojunk : bool) (b : str) :
  b2j_ok b (Difflib.chain_b autojunk b).
Proof.
  assert (H : b2j_ok b (Difflib.index_elements 0 b ∅)).
  { apply (index_elements_ok b [] ∅). intros c js j Hc. now rewrite lookup_empty in Hc. }
  unfold Difflib.chain_b. destruct (autojunk && _); [|exact H].
  intros c js j Hc Hj. apply map_lookup_filter_Some in Hc as [Hc _].
  exact (H c js j Hc Hj).
Qed.

Section FindLongestMatch.
Context (a b : str) (b2j : gmap ascii (list Z)).
Context (alo ahi blo bhi : Z).
Hypothesis Hb2j : b2j_ok b b2j.

Lemma scan_row_ok (i : Z) (j2len : gmap Z Z) (js : list Z) :
  alo <= i ->
  row_ok a b alo blo bhi (i - 1) j2len ->
  (forall j, j ∈ js ->
     exists c, Difflib.getitem a i = Some c /\ Difflib.getitem b j = Some c) ->
  forall (newj2len : gmap Z Z) (best : Difflib.Block),
    row_ok a b alo blo bhi i newj2len ->
    block_in a b alo (i + 1) blo bhi best ->
    row_ok a b alo blo bhi i (Difflib.scan_row i blo bhi j2len js newj2len best).1 /\
    block_in a b alo (i + 1) blo bhi
             (Difflib.scan_row i blo bhi j2len js newj2len best).2.
Proof.
  intros Hi Hprev. induction js as [|j js IH]; intros Hjs newj2len best Hnew Hbest.
  - now split.
  - assert (Hjs' : forall j', j' ∈ js -> exists c,
               Difflib.getitem a i = Some c /\ Difflib.getitem b j' = Some c).
    { intros j' Hj'. apply Hjs. now apply elem_of_cons; right. }
    simpl. destruct (j <? blo) eqn:Hlo; [now apply IH|].
    destruct (bhi <=? j) eqn:Hhi; [now split|].
    set (k := default 0 (j2len !! (j - 1)) + 1).
    assert (Hnb : 1 <= k /\ block_in a b alo (i + 1) blo bhi (i - k + 1, j - k + 1, k)).
    { destruct (Hjs j) as [c [Hai Hbj]]; [now apply elem_of_cons; left|].
      subst k. destruct (j2len !! (j - 1)) as [k0|] eqn:E; simpl.
      - destruct (Hprev _ _ E) as [Hk0 (H0 & H1 & H2 & H3 & H4 & Hsame)].
        split; [lia|]. repeat split; try lia.
        intros t Ht. destruct (decide (t = k0)) as [->|Hne].
        + exists c. split; [rewrite <- Hai|rewrite <- Hbj]; f_equal; lia.
        + destruct (Hsame t) as [d [Hd1 Hd2]]; [lia|].
          exists d. split; [rewrite <- Hd1|rewrite <- Hd2]; f_equal; lia.
      - split; [lia|]. repeat split; try lia.
        intros t Ht. assert (t = 0) as -> by lia.
        exists c. split; [rewrite <- Hai|rewrite <- Hbj]; f_equal; lia. }
    apply IH; [exact Hjs'| |].
    + intros j' k'. destruct (decide (j = j')) as [<-|Hne].
      * rewrite lookup_insert_eq. intros [= <-]. exact Hnb.
      * rewrite lookup_insert_ne by exact Hne. apply Hnew.
    + destruct (best.2 <? k); [apply Hnb|exact Hbest].
Qed.

Lemma scan_rows_ok (n : nat) :
  forall (i0 : Z) (j2len : gmap Z Z) (best : Difflib.Block),
    0 <= i0 -> alo <= i0 -> i0 + Z.of_nat n <= Z.of_nat (length a) ->
    row_ok a b alo blo bhi (i0 - 1) j2len ->
    block_in a b alo i0 blo bhi best ->
    exists best',
      Difflib.scan_rows a b2j blo bhi (seqZ i0 (Z.of_nat n)) j2len best
      = Some best' /\
      block_in a b alo (i0 + Z.of_nat n) blo bhi best'.
Proof.
  induction n as [|n IH]; intros i0 j2len best Hi0 Halo Hlen Hprev Hbest.
  - exists best. simpl. now rewrite Z.add_0_r.
  - rewrite seqZ_cons by lia. cbn [Difflib.scan_rows].
    replace (Z.pred (Z.of_nat (S n))) with (Z.of_nat n) by lia.
    destruct (Difflib.getitem a i0) as [c|] eqn:Ha.
    2:{ rewrite getitem_nonneg in Ha by lia.
        apply lookup_ge_None in Ha. lia. }
    destruct (scan_row_ok i0 j2len (default [] (b2j !! c)) Halo Hprev)
      with (newj2len := (∅ : gmap Z Z)) (best := best) as [H1 H2].
    + intros j Hj. exists c. split; [exact Ha|].
      destruct (b2j !! c) as [js|] eqn:Hc; simpl in Hj; [|inversion Hj].
      exact (proj2 (Hb2j c js j Hc Hj)).
    + intros j k Hk. now rewrite lookup_empty in Hk.
    + apply block_in_weaken with i0; [lia|exact Hbest].
    + destruct (Difflib.scan_row i0 blo bhi j2len _ ∅ best)
        as [newj2len best1].
      simpl in H1, H2.
      replace (i0 + Z.of_nat (S n)) with (Z.succ i0 + Z.of_nat n) by lia.
      apply IH; [lia|lia|lia| |].
      * replace (Z.succ i0 - 1) with i0 by lia. exact H1.
      * replace (Z.succ i0) with (i0 + 1) by lia. exact H2.
Qed.

Hypothesis Hrange : range_ok a b (alo, ahi, blo, bhi).

Lemma getitem_in_range (s : str) (i : Z) :
  0 <= i < Z.of_nat (length s) -> exists c, Difflib.getitem s i = Some c.
Proof.
  intros Hi. rewrite getitem_nonneg by lia.
  apply lookup_lt_is_Some. lia.
Qed.

Lemma extend_left_ok (junk : bool) (fuel : nat) :
  forall best : Difflib.Block,
    best.1.1 - alo <= Z.of_nat fuel ->
    block_in a b alo ahi blo bhi best ->
    exists best',
      Difflib.extend_left fuel a b junk alo blo best = Some best' /\
      block_in a b alo ahi blo bhi best'.
Proof.
  destruct Hrange as (Ha & Ha' & Hb & Hb').
  induction fuel as [|fuel IH]; intros [[i j] k] Hfuel Hbest;
    pose proof Hbest as (H0 & H1 & H2 & H3 & H4 & Hsame);
    cbn [Difflib.extend_left]; simpl in Hfuel;
    (destruct ((alo <? i) && (blo <? j)) eqn:Hguard; [|now exists (i, j, k)]);
    apply andb_prop in Hguard as [Hi Hj]; [lia|].
  destruct (getitem_in_range b (j - 1)) as [d Hd]; [lia|]. rewrite Hd.
  destruct (eqb (Difflib.isbjunk d) junk); [|now exists (i, j, k)].
  destruct (getitem_in_range a (i - 1)) as [c Hc]; [lia|]. rewrite Hc.
  destruct (ascii_dec c d) as [->|]; [|now exists (i, j, k)].
  apply IH; [simpl; lia|].
  repeat split; try lia.
  intros t Ht. destruct (decide (t = 0)) as [->|Hne].
  - exists d. split; [rewrite <- Hc|rewrite <- Hd]; f_equal; lia.
  - destruct (Hsame (t - 1)) as [e [He1 He2]]; [lia|].
    exists e. split; [rewrite <- He1|rewrite <- He2]; f_equal; lia.
Qed.

Lemma extend_right_ok (junk : bool) (fuel : nat) :
  forall best : Difflib.Block,
    ahi - (best.1.1 + best.2) <= Z.of_nat fuel ->
    block_in a b alo ahi blo bhi best ->
    exists best',
      Difflib.extend_right fuel a b junk ahi bhi best = Some best' /\
      block_in a b alo ahi blo bhi best'.
Proof.
  destruct Hrange as (Ha & Ha' & Hb & Hb').
  induction fuel as [|fuel IH]; intros [[i j] k] Hfuel Hbest;
    pose proof Hbest as (H0 & H1 & H2 & H3 & H4 & Hsame);
    cbn [Difflib.extend_right]; simpl in Hfuel;
    (destruct ((i + k <? ahi) && (j + k <? bhi)) eqn:Hguard;
     [|now exists (i, j, k)]);
    apply andb_prop in Hguard as [Hi Hj]; [lia|].
  destruct (getitem_in_range b (j + k)) as [d Hd]; [lia|]. rewrite Hd.
  destruct (eqb (Difflib.isbjunk d) junk); [|now exists (i, j, k)].
  destruct (getitem_in_range a (i + k)) as [c Hc]; [lia|]. rewrite Hc.
  destruct (ascii_dec c d) as [->|]; [|now exists (i, j, k)].
  apply IH; [simpl; lia|].
  repeat split; try lia.
  intros t Ht. destruct (decide (t = k)) as [->|Hne].
  - now exists d.
  - apply Hsame. lia.
Qed.

Lemma extend_ok (junk : bool) (best : Difflib.Block) :
  block_in a b alo ahi blo bhi best ->
  exists best',
    Difflib.extend a b junk alo ahi blo bhi best = Some best' /\
    block_in a b alo ahi blo bhi best'.
Proof.
  intros H. unfold Difflib.extend.
  destruct (extend_left_ok junk (Z.to_nat (best.1.1 - alo)) best)
    as [best1 [-> H1]]; [lia|exact H|].
  simpl. apply extend_right_ok; [lia|exact H1].
Qed.

(** [find_longest_match] raises nothing, and returns a block of matching
    characters inside the ranges it was given. *)
Lemma find_longest_match_ok :
  exists best,
    Difflib.find_longest_match a b b2j alo ahi blo bhi = Some best /\
    block_in a b alo ahi blo bhi best.
Proof.
  pose proof Hrange as (Ha & Ha' & Hb & Hb').
  unfold Difflib.find_longest_match.
  destruct (scan_rows_ok (Z.to_nat (ahi - alo)) alo ∅ (alo, blo, 0))
    as [best0 [H0 Hb0]]; try lia.
  { intros j k Hk. now rewrite lookup_empty in Hk. }
  { repeat split; try lia. }
  replace (Z.of_nat (Z.to_nat (ahi - alo))) with (ahi - alo) in H0, Hb0 by lia.
  replace (alo + (ahi - alo)) with ahi in Hb0 by lia.
  rewrite H0. simpl.
  destruct (extend_ok false best0 Hb0) as [best1 [-> Hb1]]. simpl.
  now apply extend_ok.
Qed.

End FindLongestMatch.

Lemma block_in_widen (a b : str) (alo ahi blo bhi alo' ahi' blo' bhi' : Z)
    (x : Difflib.Block) :
  alo' <= alo -> ahi <= ahi' -> blo' <= blo -> bhi <= bhi' ->
  block_in a b alo ahi blo bhi x -> block_in a b alo' ahi' blo' bhi' x.
Proof.
  destruct x as [[i j] k]. unfold block_in. intros ? ? ? ? H.
  repeat split; try lia; apply H.
Qed.

Lemma sum_sizes_app (l1 l2 : list Difflib.Block) :
  Difflib.sum_sizes (l1 ++ l2) = Difflib.sum_sizes l1 + Difflib.sum_sizes l2.
Proof.
  induction l1 as [|x l1 IH]; simpl; [reflexivity|].
  unfold Difflib.sum_sizes in *. simpl. rewrite IH. lia.
Qed.

Lemma sum_sizes_Permutation (l1 l2 : list Difflib.Block) :
  Permutation l1 l2 -> Difflib.sum_sizes l1 = Difflib.sum_sizes l2.
Proof.
  unfold Difflib.sum_sizes.
  induction 1; simpl in *; lia.
Qed.

Lemma sum_sizes_nonneg (a b : str) (l : list Difflib.Block) :
  Forall (common_block a b) l -> 0 <= Difflib.sum_sizes l.
Proof.
  unfold Difflib.sum_sizes.
  induction 1 as [|[[i j] k] l Hx Hl IH]; simpl; [lia|].
  destruct Hx as [Hk _]. lia.
Qed.

Lemma queue_turns_nonneg (a b : str) (queue : list Difflib.Range) :
  Forall (range_ok a b) queue -> 0 <= queue_turns queue.
Proof.
  induction 1 as [|[[[alo ahi] blo] bhi] q Hr Hq IH]; simpl; [lia|].
  destruct Hr as (? & ? & ? & ?). lia.
Qed.

Section QueueLoop.
Context (a b : str) (b2j : gmap ascii (list Z)).
Hypothesis Hb2j : b2j_ok b b2j.

(** The queue loop returns when it is given more turns than
    [queue_turns]; it adds blocks of matching characters only, and no more
    characters than the ranges of the queue have room for. *)
Lemma blocks_loop_ok (fuel : nat) :
  forall (queue : list Difflib.Range) (acc : list Difflib.Block),
    Forall (range_ok a b) queue ->
    queue_turns queue < Z.of_nat fuel ->
    exists new,
      Difflib.blocks_loop fuel a b b2j queue acc = Some (acc ++ new) /\
      Forall (common_block a b) new /\
      Difflib.sum_sizes new <= queue_room queue.
Proof.
  induction fuel as [|fuel IH]; intros queue acc Hq Hfuel.
  - pose proof (queue_turns_nonneg a b queue Hq). lia.
  - destruct queue as [|[[[alo ahi] blo] bhi] queue].
    + exists []. simpl. rewrite app_nil_r. repeat split; [constructor|lia].
    + apply Forall_cons in Hq as [Hr Hq].
      destruct (find_longest_match_ok a b b2j alo ahi blo bhi Hb2j Hr)
        as [[[i j] k] [E Hflm]].
      destruct Hr as (Ha & Ha' & Hb & Hb').
      pose proof (queue_turns_nonneg a b queue Hq) as Hnn.
      cbn [Difflib.blocks_loop]. rewrite E.
      assert (Hblock : common_block a b (i, j, k)).
      { apply (block_in_widen a b alo ahi blo bhi); try lia. exact Hflm. }
      destruct Hflm as (H0 & H1 & H2 & H3 & H4 & _).
      simpl in Hfuel |- *.
      destruct (k =? 0) eqn:Hk.
      * destruct (IH queue acc Hq ltac:(lia)) as [new (Hnew & Hall & Hsum)].
        exists new. repeat split; [exact Hnew|exact Hall|lia].
      * set (queue1 := if (alo <? i) && (blo <? j)
                       then (alo, i, blo, j) :: queue else queue).
        set (queue2 := if (i + k <? ahi) && (j + k <? bhi)
                       then (i + k, ahi, j + k, bhi) :: queue1 else queue1).
        assert (Hq1 : Forall (range_ok a b) queue1 /\
                      queue_turns queue1 <= queue_turns queue + 2 * (i - alo) + 1 /\
                      queue_room queue1
                      <= queue_room queue + Z.min (i - alo) (j - blo)).
        { subst queue1. clear queue2.
          destruct ((alo <? i) && (blo <? j)) eqn:Hc; simpl.
          - split; [|lia]. constructor; [|exact Hq]. repeat split; lia.
          - split; [exact Hq|lia]. }
        destruct Hq1 as (Hq1 & Ht1 & Hr1).
        assert (Hq2 : Forall (range_ok a b) queue2 /\
                      queue_turns queue2
                      <= queue_turns queue1 + 2 * (ahi - (i + k)) + 1 /\
                      queue_room queue2
                      <= queue_room queue1 + Z.min (ahi - (i + k)) (bhi - (j + k))).
        { subst queue2.
          destruct ((i + k <? ahi) && (j + k <? bhi)) eqn:Hc; simpl.
          - split; [|lia]. constructor; [|exact Hq1]. repeat split; lia.
          - split; [exact Hq1|lia]. }
        destruct Hq2 as (Hq2 & Ht2 & Hr2).
        destruct (IH queue2 (acc ++ [(i, j, k)]) Hq2 ltac:(lia))
          as [new (Hnew & Hall & Hsum)].
        exists ((i, j, k) :: new). rewrite Hnew, <- app_assoc.
        repeat split; [now constructor|].
        change (Difflib.sum_sizes ((i, j, k) :: new))
          with (k + Difflib.sum_sizes new).
        lia.
Qed.

End QueueLoop.

Lemma common_block_merge (a b : str) (i j k1 k2 : Z) :
  common_block a b (i, j, k1) ->
  common_block a b (i + k1, j + k1, k2) ->
  common_block a b (i, j, k1 + k2).
Proof.
  intros (H0 & H1 & H2 & H3 & H4 & Hs) (G0 & G1 & G2 & G3 & G4 & Gs).
  repeat split; try lia.
  intros t Ht. destruct (decide (t < k1)) as [Hlt|Hge].
  - apply Hs. lia.
  - destruct (Gs (t - k1)) as [c [Hc1 Hc2]]; [lia|].
    exists c. split; [rewrite <- Hc1|rewrite <- Hc2]; f_equal; lia.
Qed.

Lemma collapse_ok (a b : str) (blocks : list Difflib.Block) :
  forall (cur : Difflib.Block) (acc : list Difflib.Block),
    common_block a b cur ->
    Forall (common_block a b) blocks ->
    Forall (common_block a b) acc ->
    Forall (common_block a b) (Difflib.collapse cur blocks acc).1 /\
    common_block a b (Difflib.collapse cur blocks acc).2 /\
    Difflib.sum_sizes (Difflib.collapse cur blocks acc).1
      + (Difflib.collapse cur blocks acc).2.2
    = Difflib.sum_sizes acc + cur.2 + Difflib.sum_sizes blocks.
Proof.
  induction blocks as [|[[i2 j2] k2] blocks IH]; intros [[i1 j1] k1] acc Hcur Hbl Hacc.
  - simpl. split; [|split]; auto. unfold Difflib.sum_sizes. simpl. lia.
  - apply Forall_cons in Hbl as [Hx Hbl].
    cbn [Difflib.collapse].
    change (Difflib.sum_sizes ((i2, j2, k2) :: blocks))
      with (k2 + Difflib.sum_sizes blocks).
    destruct ((i1 + k1 =? i2) && (j1 + k1 =? j2)) eqn:Hadj.
    + apply andb_prop in Hadj as [Hi Hj].
      apply Z.eqb_eq in Hi, Hj. subst i2 j2.
      destruct (IH (i1, j1, k1 + k2) acc) as (H1 & H2 & H3); auto.
      { now apply common_block_merge. }
      split; [|split]; auto. rewrite H3. simpl. lia.
    + destruct (IH (i2, j2, k2)
                  (if k1 =? 0 then acc else acc ++ [(i1, j1, k1)]))
        as (H1 & H2 & H3); auto.
      { destruct (k1 =? 0); [exact Hacc|].
        apply Forall_app. split; [exact Hacc|].
        constructor; [exact Hcur|constructor]. }
      split; [|split]; auto. rewrite H3.
      destruct (k1 =? 0) eqn:Hk1; simpl.
      * apply Z.eqb_eq in Hk1. lia.
      * rewrite sum_sizes_app. unfold Difflib.sum_sizes at 2. simpl. lia.
Qed.

(** [get_matching_blocks] returns for every pair of strings.  Sorting the
    blocks of the queue loop and merging the adjacent ones keeps their
    characters: the blocks returned are blocks of matching characters, as
    many characters as the loop found, and no more than the shorter string
    has. *)
Lemma get_matching_blocks_found (autojunk : bool) (a b : str) :
  exists found blocks,
    Difflib.blocks_loop (Difflib.loop_fuel a) a b (Difflib.chain_b autojunk b)
      [(0, Z.of_nat (length a), 0, Z.of_nat (length b))] [] = Some found /\
    Difflib.get_matching_blocks autojunk a b = Some blocks /\
    Forall (common_block a b) blocks /\
    Difflib.sum_sizes blocks = Difflib.sum_sizes found /\
    0 <= Difflib.sum_sizes blocks
      <= Z.min (Z.of_nat (length a)) (Z.of_nat (length b)).
Proof.
  unfold Difflib.get_matching_blocks.
  destruct (blocks_loop_ok a b (Difflib.chain_b autojunk b)
              (chain_b_ok autojunk b)
              (Difflib.loop_fuel a)
              [(0, Z.of_nat (length a), 0, Z.of_nat (length b))] [])
    as [found (Hloop & Hall & Hsum)].
  { repeat constructor; lia. }
  { unfold Difflib.loop_fuel. simpl. lia. }
  simpl app in Hloop. exists found. rewrite Hloop. simpl in Hsum.
  pose proof (sort_Permutation Difflib.block_ltb found) as Hperm.
  destruct (collapse_ok a b (Py.sort Difflib.block_ltb found) (0, 0, 0) [])
    as (H1 & H2 & H3).
  { repeat split; try lia. }
  { now rewrite Hperm. }
  { constructor. }
  destruct (Difflib.collapse _ _ _) as [non_adjacent [[i1 j1] k1]].
  simpl in H1, H2, H3.
  rewrite (sum_sizes_Permutation _ _ Hperm) in H3.
  change (Difflib.sum_sizes []) with 0 in H3.
  eexists. split; [reflexivity|]. split; [reflexivity|].
  assert (Hlast : common_block a b
                    (Z.of_nat (length a), Z.of_nat (length b), 0)).
  { repeat split; lia. }
  assert (Hfound : 0 <= Difflib.sum_sizes found)
    by (eapply sum_sizes_nonneg; exact Hall).
  assert (Hsize : Difflib.sum_sizes
                    ((if k1 =? 0 then non_adjacent
                      else non_adjacent ++ [(i1, j1, k1)])
                     ++ [(Z.of_nat (length a), Z.of_nat (length b), 0)])
                  = Difflib.sum_sizes found).
  { destruct (k1 =? 0) eqn:Hk1.
    - apply Z.eqb_eq in Hk1.
      rewrite sum_sizes_app. unfold Difflib.sum_sizes at 2. simpl. lia.
    - rewrite !sum_sizes_app. unfold Difflib.sum_sizes at 2 3. simpl. lia. }
  simpl. split; [|split; [exact Hsize|rewrite Hsize; lia]].
  destruct (k1 =? 0).
  - apply Forall_app. split; [exact H1|].
    constructor; [exact Hlast|constructor].
  - repeat (apply Forall_app; split); auto;
      (constructor; [assumption|constructor]).
Qed.

Lemma get_matching_blocks_ok (autojunk : bool) (a b : str) :
  exists blocks,
    Difflib.get_matching_blocks autojunk a b = Some blocks /\
    Forall (common_block a b) blocks /\
    0 <= Difflib.sum_sizes blocks
      <= Z.min (Z.of_nat (length a)) (Z.of_nat (length b)).
Proof.
  destruct (get_matching_blocks_found autojunk a b)
    as (found & blocks & _ & H1 & H2 & _ & H3).
  now exists blocks.
Qed.

Lemma get_matching_blocks_total (autojunk : bool) (a b : str) :
  is_Some (Difflib.get_matching_blocks autojunk a b).
Proof.
  destruct (get_matching_blocks_ok autojunk a b) as [blocks [H _]]. eauto.
Qed.

Lemma calculate_ratio_bounds (matches len : Z) :
  0 <= 2 * matches <= len ->
  (0 <= Difflib.calculate_ratio matches len <= 1)%Q.
Proof.
  intros H. unfold Difflib.calculate_ratio.
  destruct (len =? 0) eqn:E; [split; discriminate|].
  apply Z.eqb_neq in E. destruct len as [|p|p]; try lia.
  unfold Qle, Qdiv, Qmult, Qinv, inject_Z. simpl. lia.
Qed.

Lemma ratio_bounds (autojunk : bool) (a b : str) :
  (0 <= Difflib.ratio autojunk a b <= 1)%Q.
Proof.
  unfold Difflib.ratio.
  destruct (get_matching_blocks_ok autojunk a b) as [blocks (-> & _ & Hsum)].
  apply calculate_ratio_bounds. lia.
Qed.

(** ** [difflib]: the blocks found are longest blocks, unless popular
    characters were dropped *)

Lemma index_elements_complete (b' : str) :
  forall (pre : str) (b2j : gmap ascii (list Z)),
    (forall c,
        StronglySorted Z.lt (default [] (b2j !! c)) /\
        Forall (fun j => j < Z.of_nat (length pre)) (default [] (b2j !! c)) /\
        forall j, 0 <= j -> Difflib.getitem pre j = Some c ->
                  j ∈ default [] (b2j !! c)) ->
    b2j_complete (pre ++ b')
      (Difflib.index_elements (Z.of_nat (length pre)) b' b2j).
Proof.
  induction b' as [|elt b' IH]; intros pre b2j Hinv.
  - simpl. rewrite app_nil_r. intros c. destruct (Hinv c) as (H1 & _ & H3).
    now split.
  - simpl. replace (pre ++ elt :: b') with ((pre ++ [elt]) ++ b')
      by (now rewrite <- app_assoc).
    replace (Z.of_nat (length pre) + 1) with (Z.of_nat (length (pre ++ [elt])))
      by (rewrite length_app; simpl; lia).
    apply IH. intros c. destruct (Hinv c) as (H1 & H2 & H3).
    rewrite length_app. simpl.
    destruct (decide (elt = c)) as [->|Hne].
    + rewrite lookup_insert_eq. simpl. split; [|split].
      * clear H3. induction H1 as [|x l Hl IHl Hx]; simpl.
        -- repeat constructor.
        -- apply Forall_cons in H2 as [Hx2 H2]. constructor; [now apply IHl|].
           apply Forall_app. split; [exact Hx|]. repeat constructor. lia.
      * apply Forall_app. split.
        -- eapply Forall_impl; [exact H2|]. intros; simpl in *; lia.
        -- repeat constructor. lia.
      * intros j Hj Hc. rewrite getitem_nonneg in Hc by lia.
        apply elem_of_app.
        destruct (decide (j < Z.of_nat (length pre))) as [Hlt|Hge].
        -- left. apply H3; [lia|]. rewrite getitem_nonneg by lia.
           now rewrite lookup_app_l in Hc by lia.
        -- right. apply list_elem_of_singleton.
           pose proof (lookup_lt_Some _ _ _ Hc) as Hlen.
           rewrite length_app in Hlen. simpl in Hlen. lia.
    + rewrite lookup_insert_ne by exact Hne. split; [exact H1|]. split.
      * eapply Forall_impl; [exact H2|]. intros; simpl in *; lia.
      * intros j Hj Hc. apply H3; [lia|].
        rewrite getitem_nonneg in Hc |- * by lia.
        destruct (decide (j < Z.of_nat (length pre))) as [Hlt|Hge].
        -- now rewrite lookup_app_l in Hc by lia.
        -- pose proof (lookup_lt_Some _ _ _ Hc) as Hlen.
           rewrite length_app in Hlen. simpl in Hlen.
           assert (Z.to_nat j = length pre) as Heq by lia.
           rewrite Heq, list_lookup_middle in Hc by reflexivity.
           congruence.
Qed.

Lemma chain_b_complete (autojunk : bool) (b : str) :
  autojunk = false \/ Z.of_nat (length b) < 200 ->
  b2j_complete b (Difflib.chain_b autojunk b).
Proof.
  intros H. unfold Difflib.chain_b.
  replace (autojunk && (200 <=? Z.of_nat (length b))) with false.
  - apply (index_elements_complete b [] ∅).
    intros c. rewrite lookup_empty. simpl.
    repeat split; try constructor.
    intros j Hj Hc. rewrite getitem_nonneg in Hc by lia.
    now rewrite lookup_nil in Hc.
  - destruct H as [->|H]; [reflexivity|].
    symmetry. apply andb_false_iff. right. lia.
Qed.

Section LongestMatch.
Context (a b : str) (b2j : gmap ascii (list Z)).
Context (alo ahi blo bhi : Z).
Hypothesis Hb2j : b2j_ok b b2j.
Hypothesis Hcomplete : b2j_complete b b2j.






Hypothesis Hrange : range_ok a b (alo, ahi, blo, bhi).


End LongestMatch.

Section GreedyLoop.
Context (a b : str) (b2j : gmap ascii (list Z)).
Hypothesis Hb2j : b2j_ok b b2j.
Hypothesis Hcomplete : b2j_complete b b2j.



End GreedyLoop.



(** ** The similarity score *)



Lemma keyword_hits_le (sentence pointer : str) :
  (keyword_hits sentence pointer
   <= length (Re.findall_word (Py.lower pointer)))%nat.
Proof. unfold keyword_hits. apply filter_length_le. Qed.


Lemma lower_repeated_word (n : nat) :
  Py.lower (repeated_word n) = repeated_word n.
Proof.
  induction n as [|n IH]; [reflexivity|].
  unfold Py.lower in *. simpl. now rewrite IH.
Qed.

Lemma findall_word_repeated_word (n : nat) :
  Re.findall_word (repeated_word n) = repeat (pystr "a") n.
Proof.
  unfold Re.findall_word. induction n as [|n IH]; [reflexivity|].
  simpl. now rewrite IH.
Qed.

Lemma keyword_hits_repeated_word (n : nat) :
  keyword_hits (pystr "a") (repeated_word n) = n.
Proof.
  unfold keyword_hits.
  rewrite lower_repeated_word, findall_word_repeated_word.
  induction n as [|n IH]; [reflexivity|].
  simpl in *. now rewrite IH.
Qed.



(** The same on a pointer of 237 characters and a sentence that occurs in
    it word for word: popular characters dropped, [difflib] matches 12 of
    the 29 characters of the sentence. *)
Example popular_characters_dropped :
  let sentence := pystr "the buyer shall pay the price" in
  Z.of_nat (length delivery_pointer) = 237 /\
  Py.contains delivery_pointer sentence = true /\
  Difflib.get_matching_blocks true sentence delivery_pointer
  = Some [(0, 40, 10); (27, 67, 2); (29, 237, 0)] /\
  Difflib.get_matching_blocks false sentence delivery_pointer
  = Some [(0, 86, 29); (29, 237, 0)].
Proof. repeat split; vm_compute; reflexivity. Qed.



(** C10. With exact arithmetic the score is at most [1 + 0.1 * T], where
    [T] is the number of word tokens of the lower-cased pointer: the ratio
    is at most 1 and the hits are at most [T].  No bound holds for all
    pointers. *)
Theorem compute_similarity_bounded :
  (forall sentence pointer : str,
      let T := length (Re.findall_word (Py.lower pointer)) in
      (Difflib.ratio true (Py.lower sentence) (Py.lower pointer) <= 1)%Q /\
      (keyword_hits sentence pointer <= T)%nat /\
      (compute_similarity sentence pointer
       <= 1 + (1 # 10) * inject_Z (Z.of_nat T))%Q) /\
  (forall bound : Q,
      exists sentence pointer : str,
        (bound < compute_similarity sentence pointer)%Q).
Proof.
  split.
  - intros sentence pointer T.
    pose proof (ratio_bounds true (Py.lower sentence) (Py.lower pointer)) as [_ Hr].
    pose proof (keyword_hits_le sentence pointer) as Hh. fold T in Hh.
    split; [exact Hr|]. split; [exact Hh|].
    unfold compute_similarity. apply Qplus_le_compat; [exact Hr|].
    apply Qmult_le_l; [reflexivity|].
    rewrite <- Zle_Qle. lia.
  - intros bound.
    set (n := Z.to_nat (10 * (Z.abs (Qnum bound) + 1))).
    exists (pystr "a"), (repeated_word n).
    unfold compute_similarity. rewrite keyword_hits_repeated_word.
    pose proof (ratio_bounds true (Py.lower (pystr "a"))
                             (Py.lower (repeated_word n))) as [Hr _].
    apply Qlt_le_trans with ((1 # 10) * inject_Z (Z.of_nat n))%Q.
    + subst n. destruct bound as [p q].
      unfold Qlt, Qmult, inject_Z. simpl. nia.
    + rewrite <- (Qplus_0_l ((1 # 10) * inject_Z (Z.of_nat n))) at 1.
      apply Qplus_le_compat; [exact Hr|apply Qle_refl].
Qed.




(** ** Snippets of one page *)

Lemma sentence_shape_characters (g : str) :
  sentence_shape sentence_excluded sentence_terminators g ->
  forall (i : nat) (ch : ascii),
    g !! i = Some ch ->
    (ch = "."%char \/ ch = "!"%char \/ ch = "?"%char -> S i = length g) /\
    ch <> "\"%char /\ ch <> "n"%char.
Proof.
  intros (run & t & -> & Hne & Hrun & Ht) i ch Hch.
  apply lookup_app_Some in Hch as [Hch|[Hi Hch]].
  - rewrite Forall_forall in Hrun.
    assert (Hout : Re.member ch sentence_excluded = false).
    { apply Hrun. eapply list_elem_of_lookup_2. exact Hch. }
    repeat split.
    + intros [->|[->| ->]]; vm_compute in Hout; discriminate.
    + intros ->. vm_compute in Hout. discriminate.
    + intros ->. vm_compute in Hout. discriminate.
  - destruct Ht as [->|[c [-> Hc]]]; [now rewrite lookup_nil in Hch|].
    destruct (i - length run)%nat as [|k] eqn:E; simpl in Hch; [|now destruct k].
    injection Hch as ->.
    repeat split.
    + intros _. rewrite length_app. simpl. lia.
    + intros ->. vm_compute in Hc. discriminate.
    + intros ->. vm_compute in Hc. discriminate.
Qed.

Lemma infix_characters (p s q : str) :
  snippet_characters_ok (p ++ s ++ q) -> snippet_characters_ok s.
Proof.
  intros H i ch Hch.
  pose proof (lookup_lt_Some _ _ _ Hch) as Hlt.
  destruct (H (length p + i)%nat ch) as (H1 & H2 & H3).
  { rewrite lookup_app_r by lia.
    replace (length p + i - length p)%nat with i by lia.
    now rewrite lookup_app_l. }
  repeat split; [|exact H2|exact H3].
  intros Hterm. specialize (H1 Hterm).
  rewrite !length_app in H1. lia.
Qed.

Lemma candidate_characters (page_text pointer : str) (c : Candidate.t) :
  c ∈ candidates page_text pointer ->
  snippet_characters_ok (Candidate.snippet c).
Proof.
  intros Hc. apply candidates_spec in Hc as [m [Hm Hc]].
  apply finditer_spec in Hm as (_ & _ & _ & Hshape).
  apply candidate_of_spec in Hc as (-> & _).
  destruct (strip_infix (Re.group m)) as [p [q Hpq]].
  apply (infix_characters p _ q). rewrite <- Hpq.
  exact (sentence_shape_characters _ Hshape).
Qed.

(** C9. In every snippet that [find_snippets] returns, a [.], [!] or [?]
    can only be the last character, and there is no backslash and no
    letter [n] at all. *)
Theorem snippet_characters (page_text pointer : str) (max_snippets : Z) :
  Forall (fun c => snippet_characters_ok (Candidate.snippet c))
         (find_snippets page_text pointer max_snippets).
Proof.
  apply Forall_forall. intros c Hc.
  apply find_snippets_candidates in Hc.
  now apply candidate_characters with page_text pointer.
Qed.

Lemma snippet_characters_witness :
  Forall (fun c => snippet_characters_ok (Candidate.snippet c))
         (find_snippets (pystr "Fees are due. Pay no later!") (pystr "fees") 2)
  /\ map (fun c => string_of_list_ascii (Candidate.snippet c))
         (find_snippets (pystr "Fees are due. Pay no later!") (pystr "fees") 2)
     = ["Fees are due."; "o later!"]%string.
Proof.
  split; [apply snippet_characters|vm_compute; reflexivity].
Defined.



(** ** The segmentation and the letter [n] *)

Lemma member_excluded (c : ascii) :
  c <> "\"%char -> c <> "n"%char ->
  Re.member c sentence_excluded = Re.member c sentence_terminators.
Proof.
  intros H1 H2. unfold Re.member, sentence_excluded, sentence_terminators.
  simpl.
  destruct (ascii_dec c "."), (ascii_dec c "!"), (ascii_dec c "?"),
    (ascii_dec c "\"), (ascii_dec c "n"); simpl; congruence.
Qed.

(** On a text with no backslash and no letter [n], the pattern of
    [find_snippets] segments as the spec says. *)
Lemma finditer_without_n (page_text : str) :
  Forall (fun c => c <> "\"%char /\ c <> "n"%char) page_text ->
  Re.finditer sentence_excluded sentence_terminators page_text
  = spec_sentences page_text.
Proof.
  intros Hall. unfold spec_sentences, Re.finditer. f_equal.
  generalize 0 (@None Z).
  induction Hall as [|c s [H1 H2] Hs IH]; intros pos open; [reflexivity|].
  cbn [Re.scan]. rewrite (member_excluded c H1 H2).
  destruct (Re.member c sentence_terminators), open; now rewrite ?IH.
Qed.

(** C1.  At a line of the sample contract the pattern of [find_snippets]
    ends a span at every letter [n], where the spec has one sentence.  On
    a text with no backslash and no letter [n] the two segmentations are
    the same. *)
Theorem segmenter_splits_at_n :
  (let page_text := pystr "Key contact: Jane Doe, Procurement Lead." in
   map span_and_text
       (Re.finditer sentence_excluded sentence_terminators page_text)
   = [(0, 6, "Key co"); (7, 15, "tact: Ja"); (16, 32, "e Doe, Procureme");
      (33, 40, "t Lead.")]%string /\
   map span_and_text (spec_sentences page_text)
   = [(0, 40, "Key contact: Jane Doe, Procurement Lead.")]%string) /\
  (forall page_text : str,
      Forall (fun c => c <> "\"%char /\ c <> "n"%char) page_text ->
      Re.finditer sentence_excluded sentence_terminators page_text
      = spec_sentences page_text).
Proof.
  split; [split; vm_compute; reflexivity|].
  exact finditer_without_n.
Qed.

(** C6, the scenario of the spec: the three keywords occur in the
    sentence, but the report holds no entry with the whole sentence; the
    sentence was cut at the [n] of "contract" and of "milestones". *)
Theorem contract_value_scenario :
  let sentence :=
    pystr "Total contract value: $250,000 split across milestones." in
  let pointer := pystr "total contract value" in
  let report :=
    build_response_entry pointer [{| Page.page := 1; Page.text := sentence |}] in
  keyword_hits sentence pointer = 3%nat /\
  map (fun m => (string_of_list_ascii (MatchEntry.snippet m), MatchEntry.page m))
      (PointerReport.matches report)
  = [("Total co"%string, Some 1);
     ("tract value: $250,000 split across milesto"%string, Some 1)] /\
  Forall (fun m => MatchEntry.snippet m <> sentence)
         (PointerReport.matches report).
Proof.
  split; [vm_compute; reflexivity|].
  split; [vm_compute; reflexivity|].
  vm_compute. repeat constructor; discriminate.
Qed.

(** ** The report of one pointer *)

Lemma collect_matches_spec (pointer : str) (pages : list Page.t) (m : MatchEntry.t) :
  m ∈ collect_matches pointer pages <->
  exists pg c,
    pg ∈ pages /\ c ∈ find_snippets (Page.text pg) pointer 2 /\
    m = entry_of pointer pg c.
Proof.
  unfold collect_matches. rewrite list_elem_of_In, in_flat_map. split.
  - intros [pg [Hpg Hm]]. apply list_elem_of_In in Hpg, Hm.
    apply list_elem_of_fmap in Hm as [c [-> Hc]]. eauto.
  - intros (pg & c & Hpg & Hc & ->). exists pg.
    split; apply list_elem_of_In; [exact Hpg|].
    apply list_elem_of_fmap. eauto.
Qed.

Lemma collect_matches_nil (pointer : str) (pages : list Page.t) :
  collect_matches pointer pages = [] <->
  Forall (fun pg => candidates (Page.text pg) pointer = []) pages.
Proof.
  unfold collect_matches. induction pages as [|pg pages IH]; simpl.
  - split; [constructor|reflexivity].
  - rewrite Forall_cons, <- IH, <- find_snippets_default_nil.
    split.
    + intros H. apply app_eq_nil in H as [H1 H2].
      split; [|exact H2]. now destruct (find_snippets _ _ _).
    + intros [-> ->]. reflexivity.
Qed.

Lemma collect_matches_on_page (pointer : str) (pages : list Page.t) (n : Z) :
  List.filter (on_page n) (collect_matches pointer pages)
  = collect_matches pointer
      (List.filter (fun pg => Page.page pg =? n) pages).
Proof.
  unfold collect_matches. induction pages as [|pg pages IH]; [reflexivity|].
  simpl. rewrite List.filter_app, IH.
  assert (H : forall l : list Candidate.t,
             List.filter (on_page n) (map (entry_of pointer pg) l)
             = if Page.page pg =? n then map (entry_of pointer pg) l else []).
  { induction l as [|c l IHl]; simpl; [now destruct (_ =? _)|].
    rewrite IHl. unfold on_page. simpl. now destruct (Page.page pg =? n). }
  rewrite H. now destruct (Page.page pg =? n).
Qed.


Lemma build_response_entry_matches (pointer : str) (pages : list Page.t) :
  PointerReport.matches (build_response_entry pointer pages)
  = match collect_matches pointer pages with
    | [] => [no_match_entry]
    | _ => Py.sort_by_int page_key (collect_matches pointer pages)
    end.
Proof.
  unfold build_response_entry.
  now destruct (collect_matches pointer pages).
Qed.

(** C4. The report holds the entry for no match exactly when no page gave
    a candidate, and then it holds nothing else; a report is never
    empty. *)
Theorem no_match_entry_iff (pointer : str) (pages : list Page.t) :
  let report := build_response_entry pointer pages in
  let no_candidate :=
    Forall (fun pg => candidates (Page.text pg) pointer = []) pages in
  no_match_entry
  = {| MatchEntry.snippet := [];
       MatchEntry.page := None;
       MatchEntry.start := None;
       MatchEntry.end_ := None;
       MatchEntry.rationale :=
         pystr "No matching text found for the pointer." |} /\
  (no_match_entry ∈ PointerReport.matches report <-> no_candidate) /\
  (no_candidate -> PointerReport.matches report = [no_match_entry]) /\
  PointerReport.matches report <> [].
Proof.
  intros report no_candidate. split; [reflexivity|].
  subst report no_candidate. rewrite build_response_entry_matches.
  rewrite <- collect_matches_nil.
  destruct (collect_matches pointer pages) as [|m l] eqn:E.
  - repeat split; auto. intros _. now left.
  - split; [|split].
    + split; [|discriminate]. intros Hin.
      unfold Py.sort_by_int in Hin. rewrite sort_Permutation, <- E in Hin.
      apply collect_matches_spec in Hin as (pg & c & _ & _ & Hm).
      discriminate Hm.
    + discriminate.
    + intros H. apply sort_nil_inv in H. discriminate.
Qed.

Lemma no_match_entry_iff_witness :
  PointerReport.matches
    (build_response_entry (pystr "rent")
       [{| Page.page := 1; Page.text := [] |};
        {| Page.page := 2; Page.text := pystr "... " |}])
  = [no_match_entry].
Proof.
  destruct (no_match_entry_iff (pystr "rent")
              [{| Page.page := 1; Page.text := [] |};
               {| Page.page := 2; Page.text := pystr "... " |}])
    as (_ & _ & H & _).
  apply H. repeat (constructor; [vm_compute; reflexivity|]). constructor.
Defined.



(** ** The whole document *)

Lemma build_response_entry_pointer (pointer : str) (pages : list Page.t) :
  PointerReport.pointer (build_response_entry pointer pages) = pointer.
Proof.
  unfold build_response_entry. now destruct (collect_matches pointer pages).
Qed.

(** C8. [analyze_document] is defined on all pages and pointers: the one
    loop of the engine that is not bounded by its input, the queue loop of
    [get_matching_blocks], returns and raises nothing for every pair of
    strings.  There is one report per pointer, in the order of the
    pointers, and none is empty.  When no page has text, or there is no
    page, every report is the single entry for no match. *)
Theorem analyze_document_total (pages : list Page.t) (pointer_list : list str) :
  let reports := analyze_document pages pointer_list in
  (forall a b : str, is_Some (Difflib.get_matching_blocks true a b)) /\
  map PointerReport.pointer reports = pointer_list /\
  Forall (fun r => PointerReport.matches r <> []) reports /\
  (Forall (fun pg => Page.text pg = []) pages ->
   Forall (fun r =>
             PointerReport.matches r
             = [{| MatchEntry.snippet := [];
                   MatchEntry.page := None;
                   MatchEntry.start := None;
                   MatchEntry.end_ := None;
                   MatchEntry.rationale :=
                     pystr "No matching text found for the pointer." |}])
          reports).
Proof.
  intros reports. subst reports. unfold analyze_document.
  split; [exact (get_matching_blocks_total true)|]. split; [|split].
  - rewrite map_map. rewrite <- (map_id pointer_list) at 2.
    apply map_ext. intros p. apply build_response_entry_pointer.
  - apply Forall_forall. intros r Hr.
    apply list_elem_of_fmap in Hr as [p [-> _]].
    rewrite build_response_entry_matches.
    destruct (collect_matches p pages) eqn:E; [discriminate|].
    intros H. apply sort_nil_inv in H. discriminate.
  - intros Hempty. apply Forall_forall. intros r Hr.
    apply list_elem_of_fmap in Hr as [p [-> _]].
    rewrite build_response_entry_matches.
    replace (collect_matches p pages) with (@nil MatchEntry.t); [reflexivity|].
    symmetry. apply collect_matches_nil.
    eapply Forall_impl; [exact Hempty|].
    intros pg ->. apply candidates_empty_text.
Qed.

Lemma analyze_document_total_witness :
  Forall (fun pg => Page.text pg = [])
         [{| Page.page := 1; Page.text := [] |};
          {| Page.page := 2; Page.text := [] |}] /\
  Forall (fun r => PointerReport.matches r = [no_match_entry])
         (analyze_document
            [{| Page.page := 1; Page.text := [] |};
             {| Page.page := 2; Page.text := [] |}]
            [pystr "total contract value"; []]).
Proof.
  assert (H : Forall (fun pg => Page.text pg = [])
                [{| Page.page := 1; Page.text := [] |};
                 {| Page.page := 2; Page.text := [] |}]).
  { repeat constructor. }
  split; [exact H|].
  exact (proj2 (proj2 (proj2 (analyze_document_total _ _))) H).
Defined.

(* ===================================================================== *)
(** * Further properties of [backend/app.py] *)
(* ===================================================================== *)

(** ** Pages as [load_pdf_pages] numbers them *)

(** Sorting changes nothing in a list that is in order already. *)
Lemma sort_sorted_id {A} (before : A -> A -> bool) (l : list A) :
  StronglySorted (fun u v => before v u = false) l -> Py.sort before l = l.
Proof.
  induction 1 as [|x l Hl IH Hx]; [reflexivity|].
  cbn [Py.sort foldr]. fold (Py.sort before l). rewrite IH.
  destruct l as [|y l']; [reflexivity|].
  apply Forall_cons in Hx as [Hy _]. simpl. now rewrite Hy.
Qed.



Lemma load_pages_from_sorted (extracted : list (option str)) :
  forall idx,
    StronglySorted (fun x y => Page.page x < Page.page y)
                   (load_pages_from idx extracted) /\
    Forall (fun pg => idx <= Page.page pg < idx + Z.of_nat (length extracted))
           (load_pages_from idx extracted).
Proof.
  induction extracted as [|text rest IH]; intros idx.
  - split; constructor.
  - destruct (IH (idx + 1)) as [IH1 IH2]. cbn [load_pages_from length].
    split.
    + constructor; [exact IH1|].
      eapply Forall_impl; [exact IH2|]. intros pg Hpg. simpl in *. lia.
    + constructor; [simpl; lia|].
      eapply Forall_impl; [exact IH2|]. intros pg Hpg. simpl in *. lia.
Qed.

(** The entries collected from pages in order of page number are in order
    of page number. *)
Lemma collect_matches_sorted (pointer : str) (pages : list Page.t) :
  StronglySorted (fun x y => Page.page x <= Page.page y) pages ->
  StronglySorted (fun u v => (page_key v <? page_key u) = false)
                 (collect_matches pointer pages).
Proof.
  unfold collect_matches.
  induction 1 as [|pg pages Hs IH Hpg]; [constructor|].
  cbn [flat_map].
  induction (find_snippets (Page.text pg) pointer 2) as [|c l IHl];
    [exact IH|].
  cbn [map app]. constructor; [exact IHl|].
  apply Forall_app. split.
  - apply Forall_forall. intros m Hm.
    apply list_elem_of_fmap in Hm as [c' [-> _]].
    unfold page_key. simpl. lia.
  - apply Forall_forall. intros m Hm.
    apply list_elem_of_In, in_flat_map in Hm as [pg' [Hpg' Hm]].
    apply list_elem_of_In in Hpg', Hm.
    apply list_elem_of_fmap in Hm as [c' [-> _]].
    rewrite Forall_forall in Hpg. specialize (Hpg pg' Hpg').
    unfold page_key. simpl. lia.
Qed.


(** X2. For the pages of [load_pdf_pages] the sort of
    [build_response_entry] moves nothing: the report lists the snippets
    page after page in document order, each page's snippets as
    [find_snippets] ranked them, and every page number in it is one of
    1 .. n. *)
Theorem report_in_document_order (pointer : str) (extracted : list (option str)) :
  let pages := load_pdf_pages extracted in
  let matches := PointerReport.matches (build_response_entry pointer pages) in
  (collect_matches pointer pages <> [] ->
   matches = collect_matches pointer pages) /\
  Forall (fun m => forall n, MatchEntry.page m = Some n ->
                             1 <= n <= Z.of_nat (length extracted))
         matches.
Proof.
  intros pages matches. subst matches.
  rewrite build_response_entry_matches.
  destruct (load_pages_from_sorted extracted 1) as [Hsorted Hrange].
  fold (load_pdf_pages extracted) in Hsorted, Hrange. fold pages in Hsorted, Hrange.
  assert (Hid : Py.sort_by_int page_key (collect_matches pointer pages)
                = collect_matches pointer pages).
  { apply sort_sorted_id, collect_matches_sorted.
    eapply StronglySorted_weaken; [|exact Hsorted]. intros x y. simpl. lia. }
  split.
  - intros Hne. destruct (collect_matches pointer pages) eqn:E;
      [congruence|exact Hid].
  - destruct (collect_matches pointer pages) eqn:E.
    + constructor; [|constructor]. intros n Hn. discriminate Hn.
    + rewrite Hid, <- E. apply Forall_forall. intros m Hm n Hn.
      apply collect_matches_spec in Hm as (pg & c & Hpg & _ & ->).
      simpl in Hn. injection Hn as <-.
      rewrite Forall_forall in Hrange. specialize (Hrange pg Hpg). lia.
Qed.

Lemma report_in_document_order_witness :
  collect_matches (pystr "fee")
    (load_pdf_pages [Some (pystr "Late fee."); None; Some (pystr "A fee is due.")])
  <> [] /\
  map (fun m => (MatchEntry.page m, string_of_list_ascii (MatchEntry.snippet m)))
      (PointerReport.matches
         (build_response_entry (pystr "fee")
            (load_pdf_pages
               [Some (pystr "Late fee."); None; Some (pystr "A fee is due.")])))
  = map (fun m => (MatchEntry.page m, string_of_list_ascii (MatchEntry.snippet m)))
      (collect_matches (pystr "fee")
         (load_pdf_pages
            [Some (pystr "Late fee."); None; Some (pystr "A fee is due.")])).
Proof.
  assert (H : collect_matches (pystr "fee")
                (load_pdf_pages
                   [Some (pystr "Late fee."); None; Some (pystr "A fee is due.")])
              <> []).
  { vm_compute. discriminate. }
  split; [exact H|].
  now rewrite (proj1 (report_in_document_order (pystr "fee")
                        [Some (pystr "Late fee."); None;
                         Some (pystr "A fee is due.")]) H).
Defined.

(** ** More on the snippets of one page *)

Lemma lstrip_head (s : str) (c : ascii) :
  head (Py.lstrip s) = Some c -> Py.isspace c = false.
Proof.
  induction s as [|d s IH]; simpl; [discriminate|].
  destruct (Py.isspace d) eqn:E; [exact IH|].
  simpl. now intros [= <-].
Qed.

Lemma strip_head (s : str) (c : ascii) :
  head (Py.strip s) = Some c -> Py.isspace c = false.
Proof.
  unfold Py.strip, Py.rstrip. intros H.
  destruct (lstrip_suffix (rev (Py.lstrip s))) as [q Hq].
  apply (f_equal (@rev ascii)) in Hq.
  rewrite rev_involutive, rev_app_distr in Hq.
  apply (lstrip_head s).
  rewrite Hq. destruct (rev (Py.lstrip (rev (Py.lstrip s)))); [discriminate|].
  exact H.
Qed.

Lemma strip_last (s : str) (c : ascii) :
  last (Py.strip s) = Some c -> Py.isspace c = false.
Proof.
  unfold Py.strip, Py.rstrip.
  destruct (Py.lstrip (rev (Py.lstrip s))) as [|d l] eqn:E; [discriminate|].
  simpl. rewrite last_snoc. intros [= <-].
  apply (lstrip_head (rev (Py.lstrip s))). now rewrite E.
Qed.

(** X3. A snippet that [find_snippets] returns is not empty and neither
    begins nor ends with a whitespace character. *)
Theorem snippets_are_trimmed (page_text pointer : str) (max_snippets : Z) :
  Forall (fun c =>
            Candidate.snippet c <> [] /\
            (forall ch, head (Candidate.snippet c) = Some ch ->
                        Py.isspace ch = false) /\
            (forall ch, last (Candidate.snippet c) = Some ch ->
                        Py.isspace ch = false))
         (find_snippets page_text pointer max_snippets).
Proof.
  apply Forall_forall. intros c Hc.
  apply find_snippets_candidates, candidates_spec in Hc as [m [_ Hc]].
  apply candidate_of_spec in Hc as (-> & Hne & _).
  split; [exact Hne|]. split; intros ch; [apply strip_head|apply strip_last].
Qed.

Lemma snippets_are_trimmed_witness :
  Forall (fun c =>
            Candidate.snippet c <> [] /\
            (forall ch, head (Candidate.snippet c) = Some ch ->
                        Py.isspace ch = false) /\
            (forall ch, last (Candidate.snippet c) = Some ch ->
                        Py.isspace ch = false))
         (find_snippets (pystr "  Fees are due .   Pay!  ") (pystr "fees") 2)
  /\ map (fun c => string_of_list_ascii (Candidate.snippet c))
         (find_snippets (pystr "  Fees are due .   Pay!  ") (pystr "fees") 2)
     = ["Fees are due ."; "Pay!"]%string.
Proof.
  split; [apply snippets_are_trimmed|vm_compute; reflexivity].
Defined.

(** The spans of [scan] come one after the other. *)
Lemma scan_ordered (excl term : list ascii) (s : str) :
  forall (pos : Z) (open : option Z),
    default pos open <= pos ->
    StronglySorted (fun x y => x.2 <= y.1) (Re.scan excl term pos open s) /\
    Forall (fun x => default pos open <= x.1) (Re.scan excl term pos open s).
Proof.
  induction s as [|c s IH]; intros pos open Hopen.
  - destruct open; simpl; repeat constructor; simpl; lia.
  - assert (Hnone : StronglySorted (fun x y => x.2 <= y.1)
                      (Re.scan excl term (pos + 1) None s) /\
                    Forall (fun x => pos + 1 <= x.1)
                      (Re.scan excl term (pos + 1) None s)).
    { apply (IH (pos + 1) None). simpl. lia. }
    destruct Hnone as [N1 N2].
    cbn [Re.scan]. destruct (Re.member c excl).
    + destruct open as [b|]; simpl in Hopen |- *.
      * destruct (Re.member c term); (split; constructor;
          [exact N1
          |eapply Forall_impl; [exact N2|]; intros x Hx; simpl in *; lia
          |simpl; lia
          |eapply Forall_impl; [exact N2|]; intros x Hx; simpl in *; lia]).
      * split; [exact N1|].
        eapply Forall_impl; [exact N2|]. intros x Hx. simpl in *. lia.
    + destruct (IH (pos + 1) (Some (default pos open))) as [I1 I2];
        [simpl; lia|].
      split; [exact I1|].
      eapply Forall_impl; [exact I2|]. intros x Hx.
      destruct open; simpl in *; lia.
Qed.

Lemma StronglySorted_omap {A B} (R : A -> A -> Prop) (S : B -> B -> Prop)
    (f : A -> option B) (l : list A) :
  (forall x y x' y', f x = Some x' -> f y = Some y' -> R x y -> S x' y') ->
  StronglySorted R l -> StronglySorted S (omap f l).
Proof.
  intros Hf. induction 1 as [|x l Hl IH Hx]; [constructor|].
  simpl. destruct (f x) as [x'|] eqn:Ex; [|exact IH].
  constructor; [exact IH|].
  apply Forall_forall. intros y' Hy'.
  apply list_elem_of_omap in Hy' as [y [Hy Ey]].
  rewrite Forall_forall in Hx. eauto.
Qed.

Lemma StronglySorted_elem_of {A} (R : A -> A -> Prop) (l : list A) (x y : A) :
  StronglySorted R l -> x ∈ l -> y ∈ l -> x = y \/ R x y \/ R y x.
Proof.
  induction 1 as [|h l Hl IH Hh]; intros Hx Hy; [inversion Hx|].
  rewrite Forall_forall in Hh.
  apply elem_of_cons in Hx as [->|Hx]; apply elem_of_cons in Hy as [->|Hy];
    auto.
Qed.

(** The candidates of a page, in the order of the scan, have spans that
    come one after the other. *)
Lemma candidates_ordered (page_text pointer : str) :
  StronglySorted (fun x y => Candidate.end_ x <= Candidate.start y)
                 (candidates page_text pointer).
Proof.
  unfold candidates, Re.finditer.
  apply (StronglySorted_omap (fun x y => Re.end_ x <= Re.start y)).
  - intros x y x' y' Hx Hy Hxy.
    apply candidate_of_spec in Hx as (_ & _ & _ & -> & _).
    apply candidate_of_spec in Hy as (_ & _ & -> & _). exact Hxy.
  - destruct (scan_ordered sentence_excluded sentence_terminators page_text
                0 None) as [H _]; [simpl; lia|].
    induction H as [|[b e] l Hl IH Hx]; [constructor|].
    cbn [fmap list_fmap map]. constructor; [exact IH|].
    apply Forall_forall. intros m Hm.
    apply list_elem_of_fmap in Hm as [[b' e'] [-> Hm]].
    rewrite Forall_forall in Hx. exact (Hx _ Hm).
Qed.

(** X4. Two different snippets of one page never overlap: the span of one
    ends where the span of the other begins, or before. *)
Theorem snippets_do_not_overlap (page_text pointer : str) (max_snippets : Z)
    (c1 c2 : Candidate.t) :
  c1 ∈ find_snippets page_text pointer max_snippets ->
  c2 ∈ find_snippets page_text pointer max_snippets ->
  c1 = c2 \/
  Candidate.end_ c1 <= Candidate.start c2 \/
  Candidate.end_ c2 <= Candidate.start c1.
Proof.
  intros H1 H2. apply find_snippets_candidates in H1, H2.
  exact (StronglySorted_elem_of _ _ c1 c2
           (candidates_ordered page_text pointer) H1 H2).
Qed.

Lemma snippets_do_not_overlap_witness :
  exists c1 c2,
    find_snippets (pystr "Rent is due. Pay it!") (pystr "pay") 2 = [c1; c2] /\
    (c1 = c2 \/
     Candidate.end_ c1 <= Candidate.start c2 \/
     Candidate.end_ c2 <= Candidate.start c1) /\
    (Candidate.start c1, Candidate.end_ c1) = (12, 20) /\
    (Candidate.start c2, Candidate.end_ c2) = (0, 2).
Proof.
  destruct (find_snippets (pystr "Rent is due. Pay it!") (pystr "pay") 2)
    as [|c1 [|c2 [|c3 l]]] eqn:E; try (vm_compute in E; discriminate).
  exists c1, c2. split; [reflexivity|]. split.
  - apply (snippets_do_not_overlap (pystr "Rent is due. Pay it!")
             (pystr "pay") 2); rewrite E.
    + apply elem_of_cons. now left.
    + apply elem_of_cons. right. apply elem_of_cons. now left.
  - vm_compute in E. injection E as <- <-. split; reflexivity.
Defined.

Lemma sort_length {A} (before : A -> A -> bool) (l : list A) :
  length (Py.sort before l) = length l.
Proof. apply Permutation_length, sort_Permutation. Qed.

Lemma find_snippets_take (page_text pointer : str) (k : Z) :
  0 <= k ->
  find_snippets page_text pointer k
  = take (Z.to_nat k)
         (Py.sort_by_float_reverse Candidate.score
                                   (candidates page_text pointer)).
Proof.
  intros Hk. unfold find_snippets, Py.prefix_slice.
  now replace (0 <=? k) with true by lia.
Qed.

(** X5. Asking for fewer snippets gives the first ones of what a larger
    [max_snippets] gives, and asking for none gives none. *)
Theorem find_snippets_prefix (page_text pointer : str) (k k' : Z) :
  0 <= k <= k' ->
  find_snippets page_text pointer k
  = take (Z.to_nat k) (find_snippets page_text pointer k') /\
  find_snippets page_text pointer 0 = [].
Proof.
  intros Hk. rewrite !find_snippets_take by lia. split; [|reflexivity].
  rewrite take_take. f_equal. lia.
Qed.

Lemma find_snippets_prefix_witness :
  0 <= 1 <= 2 /\
  find_snippets (pystr "Rent is due. Pay it!") (pystr "pay") 1
  = take 1 (find_snippets (pystr "Rent is due. Pay it!") (pystr "pay") 2).
Proof.
  split; [lia|].
  exact (proj1 (find_snippets_prefix (pystr "Rent is due. Pay it!")
                  (pystr "pay") 1 2 ltac:(lia))).
Defined.

(** X6. A negative [max_snippets] is not refused: the slice
    [candidates[:max_snippets]] then drops that many candidates from the
    end of the ranking, so [n + max_snippets] of the [n] candidates are
    returned, or none when that is negative. *)
Theorem find_snippets_negative (page_text pointer : str) (k : Z) :
  k < 0 ->
  let n := Z.of_nat (length (candidates page_text pointer)) in
  find_snippets page_text pointer k
  = find_snippets page_text pointer (Z.max 0 (n + k)) /\
  Z.of_nat (length (find_snippets page_text pointer k)) = Z.max 0 (n + k).
Proof.
  intros Hk n.
  assert (Hneg : find_snippets page_text pointer k
                 = take (Z.to_nat (n + k))
                        (Py.sort_by_float_reverse Candidate.score
                           (candidates page_text pointer))).
  { unfold find_snippets, Py.prefix_slice.
    replace (0 <=? k) with false by lia.
    unfold Py.sort_by_float_reverse. now rewrite sort_length. }
  split.
  - rewrite Hneg, find_snippets_take by lia. f_equal. lia.
  - rewrite Hneg, length_take.
    unfold Py.sort_by_float_reverse. rewrite sort_length. fold n. lia.
Qed.

Lemma find_snippets_negative_witness :
  -1 < 0 /\
  map (fun c => string_of_list_ascii (Candidate.snippet c))
      (find_snippets (pystr "Rent is due. Pay it! Ok.") (pystr "pay") (-1))
  = map (fun c => string_of_list_ascii (Candidate.snippet c))
      (find_snippets (pystr "Rent is due. Pay it! Ok.") (pystr "pay") 3) /\
  length (candidates (pystr "Rent is due. Pay it! Ok.") (pystr "pay")) = 4%nat.
Proof.
  split; [lia|]. split; [|vm_compute; reflexivity].
  now rewrite (proj1 (find_snippets_negative (pystr "Rent is due. Pay it! Ok.")
                        (pystr "pay") (-1) ltac:(lia))).
Defined.



(** ** More on the report of one pointer *)

Lemma find_snippets_default_length (page_text pointer : str) :
  (length (find_snippets page_text pointer 2) <= 2)%nat.
Proof. rewrite find_snippets_take by lia. rewrite length_take. lia. Qed.

Lemma collect_matches_length (pointer : str) (pages : list Page.t) :
  (length (collect_matches pointer pages) <= 2 * length pages)%nat.
Proof.
  unfold collect_matches. induction pages as [|pg pages IH]; [simpl; lia|].
  cbn [flat_map]. rewrite length_app, length_map.
  pose proof (find_snippets_default_length (Page.text pg) pointer).
  simpl length. lia.
Qed.

(** X8. A report holds at least one entry and at most two for each page of
    the document (one entry when the document has no page). *)
Theorem report_size (pointer : str) (pages : list Page.t) :
  let matches := PointerReport.matches (build_response_entry pointer pages) in
  (1 <= length matches)%nat /\
  (length matches <= Nat.max 1 (2 * length pages))%nat /\
  (forall n : Z,
      length (List.filter (on_page n) matches)
      <= 2 * length (List.filter (fun pg => (Page.page pg =? n)%Z) pages))%nat.
Proof.
  intros matches. subst matches. rewrite build_response_entry_matches.
  pose proof (collect_matches_length pointer pages) as Hlen.
  destruct (collect_matches pointer pages) as [|m l] eqn:E.
  - split; [simpl; lia|]. split; [simpl; lia|]. intros n. simpl. lia.
  - rewrite <- E in *. unfold Py.sort_by_int.
    rewrite sort_length.
    assert (1 <= length (collect_matches pointer pages))%nat
      by (rewrite E; simpl; lia).
    repeat split; try lia.
    intros n. rewrite sort_stable.
    + rewrite collect_matches_on_page. apply collect_matches_length.
    + intros y z. unfold on_page, page_key.
      destruct (MatchEntry.page y), (MatchEntry.page z); try discriminate. lia.
Qed.



(** ** More on the score *)

Lemma startswith_spec (s t : str) :
  Py.startswith s t = true <-> exists post, s = t ++ post.
Proof.
  revert s. induction t as [|c t IH]; intros [|d s]; simpl.
  - split; [now exists []|reflexivity].
  - split; [intros _; now exists (d :: s)|reflexivity].
  - split; [discriminate|]. intros [post H]. discriminate H.
  - destruct (ascii_dec c d) as [->|Hne].
    + rewrite IH. split; intros [post H]; exists post; congruence.
    + split; [discriminate|]. intros [post H]. congruence.
Qed.

Lemma contains_spec (s t : str) :
  Py.contains s t = true <-> exists pre post, s = pre ++ t ++ post.
Proof.
  induction s as [|d s IH]; cbn [Py.contains].
  - rewrite orb_false_r, startswith_spec. split.
    + intros [post H]. now exists [], post.
    + intros (pre & post & H). symmetry in H.
      apply app_eq_nil in H as [-> H]. now exists post.
  - rewrite orb_true_iff, startswith_spec, IH. split.
    + intros [[post H]|(pre & post & H)].
      * now exists [], post.
      * exists (d :: pre), post. now rewrite H.
    + intros (pre & post & H). destruct pre as [|e pre].
      * left. now exists post.
      * right. injection H as -> H. now exists pre, post.
Qed.

(** The tokens of [re.findall(r"\w+", s)] are non-empty pieces of [s]. *)
Lemma findall_word_from_infix (s : str) :
  forall (cur t : str),
    t ∈ Re.findall_word_from cur s ->
    t <> [] /\ exists pre post, rev cur ++ s = pre ++ t ++ post.
Proof.
  induction s as [|c s IH]; intros cur t Ht; simpl in Ht.
  - destruct cur as [|d cur]; [inversion Ht|].
    apply list_elem_of_singleton in Ht as ->. split.
    + intros H. apply (f_equal (@length _)) in H.
      rewrite length_rev in H. discriminate H.
    + exists [], []. now rewrite app_nil_r.
  - destruct (Py.isword c).
    + apply IH in Ht as [Hne (pre & post & H)]. split; [exact Hne|].
      exists pre, post. rewrite <- H. simpl. now rewrite <- app_assoc.
    + destruct cur as [|d cur].
      * apply IH in Ht as [Hne (pre & post & H)]. split; [exact Hne|].
        simpl in *. exists (c :: pre), post. now rewrite H.
      * apply elem_of_cons in Ht as [->|Ht].
        -- split.
           ++ intros H. apply (f_equal (@length _)) in H.
              rewrite length_rev in H. discriminate H.
           ++ now exists [], (c :: s).
        -- apply IH in Ht as [Hne (pre & post & H)]. split; [exact Hne|].
           simpl in H. exists (rev (d :: cur) ++ c :: pre), post.
           rewrite H. now rewrite <- app_assoc.
Qed.

Lemma findall_word_infix (s t : str) :
  t ∈ Re.findall_word s -> t <> [] /\ exists pre post, s = pre ++ t ++ post.
Proof. intros H. exact (findall_word_from_infix s [] t H). Qed.

Lemma filter_all {A} (P : A -> bool) (l : list A) :
  Forall (fun x => P x = true) l -> List.filter P l = l.
Proof.
  induction 1 as [|x l Hx Hl IH]; [reflexivity|].
  simpl. now rewrite Hx, IH.
Qed.

Lemma filter_none {A} (P : A -> bool) (l : list A) :
  Forall (fun x => P x = false) l -> List.filter P l = [].
Proof.
  induction 1 as [|x l Hx Hl IH]; [reflexivity|].
  simpl. now rewrite Hx, IH.
Qed.

(** X10. When the pointer occurs in the sentence, letter case apart, every
    word of the pointer is a keyword hit. *)
Theorem quoted_pointer_hits_every_keyword (sentence pointer : str) :
  Py.contains (Py.lower sentence) (Py.lower pointer) = true ->
  keyword_hits sentence pointer
  = length (Re.findall_word (Py.lower pointer)).
Proof.
  intros Hin. unfold keyword_hits. f_equal. apply filter_all.
  apply Forall_forall. intros t Ht.
  apply findall_word_infix in Ht as [_ (pre & post & Ht)].
  apply contains_spec in Hin as (pre' & post' & Hin).
  apply contains_spec. exists (pre' ++ pre), (post ++ post').
  rewrite Hin, Ht. now rewrite <- !app_assoc.
Qed.

Lemma quoted_pointer_hits_every_keyword_witness :
  keyword_hits (pystr "Any LATE fee is due at once.") (pystr "Late Fee") = 2%nat.
Proof.
  exact (quoted_pointer_hits_every_keyword
           (pystr "Any LATE fee is due at once.") (pystr "Late Fee") eq_refl).
Defined.

Lemma sum_sizes_zero (l : list Difflib.Block) :
  Forall (fun x => x.2 = 0) l -> Difflib.sum_sizes l = 0.
Proof.
  induction 1 as [|x l Hx Hl IH]; [reflexivity|].
  unfold Difflib.sum_sizes in *. simpl. lia.
Qed.

Lemma common_block_shares (a b : str) (x : Difflib.Block) :
  common_block a b x -> x.2 <> 0 -> exists c, c ∈ a /\ c ∈ b.
Proof.
  destruct x as [[i j] k]. intros (H0 & H1 & _ & H3 & _ & Hsame) Hk.
  simpl in Hk. destruct (Hsame 0) as [c [Ha Hb]]; [lia|].
  rewrite getitem_nonneg in Ha, Hb by lia.
  exists c. split; eapply list_elem_of_lookup_2; eassumption.
Qed.

Lemma compute_similarity_disjoint (sentence pointer : str) :
  (forall c, c ∈ Py.lower sentence -> c ∈ Py.lower pointer -> False) ->
  (compute_similarity sentence pointer
   == if bool_decide (sentence = [] /\ pointer = []) then 1 else 0)%Q.
Proof.
  intros Hdisjoint. unfold compute_similarity.
  assert (Hhits : keyword_hits sentence pointer = 0%nat).
  { unfold keyword_hits. rewrite filter_none; [reflexivity|].
    apply Forall_forall. intros t Ht.
    apply findall_word_infix in Ht as [Hne (pre & post & Ht)].
    destruct (Py.contains (Py.lower sentence) t) eqn:E; [|reflexivity].
    apply contains_spec in E as (pre' & post' & E).
    destruct t as [|c t]; [contradiction|].
    exfalso. apply (Hdisjoint c).
    - rewrite E. set_solver.
    - rewrite Ht. set_solver. }
  rewrite Hhits. unfold Difflib.ratio.
  destruct (get_matching_blocks_ok true (Py.lower sentence) (Py.lower pointer))
    as [blocks (-> & Hall & _)].
  rewrite sum_sizes_zero.
  2:{ eapply Forall_impl; [exact Hall|]. intros x Hx. simpl.
      destruct (decide (x.2 = 0)) as [|Hne]; [assumption|].
      destruct (common_block_shares _ _ x Hx Hne) as [c [H1 H2]].
      destruct (Hdisjoint c H1 H2). }
  unfold Difflib.calculate_ratio, Py.lower. rewrite !length_map.
  destruct sentence as [|c s], pointer as [|d p]; reflexivity.
Qed.

(** X11. A sentence and a pointer that share no character, letter case
    apart, score 0 (two empty strings apart, which score 1). *)
Theorem no_shared_character_scores_zero (sentence pointer : str) :
  (forall c, c ∈ Py.lower sentence -> c ∈ Py.lower pointer -> False) ->
  (compute_similarity sentence pointer
   == if bool_decide (sentence = [] /\ pointer = []) then 1 else 0)%Q.
Proof. apply compute_similarity_disjoint. Qed.

Lemma no_shared_character_scores_zero_witness :
  (compute_similarity (pystr "Pay by 1 May") (pystr "QUOTE") == 0)%Q.
Proof.
  apply (no_shared_character_scores_zero (pystr "Pay by 1 May") (pystr "QUOTE")).
  intros c H1 H2. vm_compute in H1, H2.
  repeat (apply elem_of_cons in H2 as [->|H2];
          [repeat (apply elem_of_cons in H1 as [H1|H1]; [discriminate H1|]);
           inversion H1|]).
  inversion H2.
Defined.

(** ** The endpoint *)




(** ** What the segmentation keeps of a page *)

Lemma scan_open_span (excl term : list ascii) (s : str) :
  forall (pos b0 : Z),
    exists e, (b0, e) ∈ Re.scan excl term pos (Some b0) s /\ pos <= e.
Proof.
  induction s as [|c s IH]; intros pos b0; simpl.
  - exists pos. split; [now left|lia].
  - destruct (Re.member c excl).
    + destruct (Re.member c term); eexists; (split; [now left|lia]).
    + destruct (IH (pos + 1) b0) as [e [He Hle]]. exists e. split; [exact He|lia].
Qed.

Lemma scan_covers (excl term : list ascii) (s : str) :
  forall (pos : Z) (open : option Z) (i : nat) (ch : ascii),
    default pos open <= pos ->
    s !! i = Some ch -> Re.member ch excl = false ->
    exists b e,
      (b, e) ∈ Re.scan excl term pos open s /\ b <= pos + Z.of_nat i < e.
Proof.
  induction s as [|c s IH]; intros pos open i ch Hopen Hi Hch; [inversion Hi|].
  destruct i as [|i].
  - injection Hi as ->. simpl. rewrite Hch.
    destruct (scan_open_span excl term s (pos + 1) (default pos open))
      as [e [He Hle]].
    exists (default pos open), e. split; [exact He|lia].
  - simpl in Hi. cbn [Re.scan].
    assert (Hnext : forall open',
               default (pos + 1) open' <= pos + 1 ->
               exists b e, (b, e) ∈ Re.scan excl term (pos + 1) open' s /\
                           b <= pos + Z.of_nat (S i) < e).
    { intros open' Hopen'.
      destruct (IH (pos + 1) open' i ch Hopen' Hi Hch) as (b & e & He & Hbe).
      exists b, e. split; [exact He|lia]. }
    destruct (Re.member c excl).
    + destruct (Hnext None) as (b & e & He & Hbe); [simpl; lia|].
      exists b, e. split; [|exact Hbe].
      destruct open as [b0|]; [|exact He].
      destruct (Re.member c term); now right.
    + apply Hnext. simpl. lia.
Qed.

Lemma elem_of_rev {A} (x : A) (l : list A) : x ∈ rev l <-> x ∈ l.
Proof. rewrite !list_elem_of_In. symmetry. apply in_rev. Qed.

Lemma lstrip_keeps (s : str) (ch : ascii) :
  ch ∈ s -> Py.isspace ch = false -> ch ∈ Py.lstrip s.
Proof.
  intros Hin Hch. induction s as [|c s IH]; [inversion Hin|].
  simpl. destruct (Py.isspace c) eqn:E; [|exact Hin].
  apply elem_of_cons in Hin as [->|Hin]; [congruence|now apply IH].
Qed.

Lemma strip_keeps (s : str) (ch : ascii) :
  ch ∈ s -> Py.isspace ch = false -> ch ∈ Py.strip s.
Proof.
  intros Hin Hch. unfold Py.strip, Py.rstrip.
  apply elem_of_rev, lstrip_keeps; [|exact Hch].
  apply elem_of_rev. now apply lstrip_keeps.
Qed.

Lemma slice_lookup (s : str) (lo hi : Z) (i : nat) (ch : ascii) :
  0 <= lo -> lo <= Z.of_nat i < hi -> s !! i = Some ch -> ch ∈ Py.slice s lo hi.
Proof.
  intros Hlo Hi Hs. unfold Py.slice.
  apply (list_elem_of_lookup_2 _ (i - Z.to_nat lo)%nat).
  rewrite lookup_take_lt by lia. rewrite lookup_drop.
  rewrite <- Hs. f_equal. lia.
Qed.

(** X13. The segmentation loses no text but the characters of its class
    and whitespace: every other character of a page lies in the span of
    exactly one candidate, and the snippet of this candidate holds it. *)
Theorem candidates_cover_page (page_text pointer : str) (i : nat) (ch : ascii) :
  page_text !! i = Some ch ->
  Re.member ch sentence_excluded = false ->
  Py.isspace ch = false ->
  exists c,
    c ∈ candidates page_text pointer /\
    Candidate.start c <= Z.of_nat i < Candidate.end_ c /\
    ch ∈ Candidate.snippet c /\
    forall c', c' ∈ candidates page_text pointer ->
               Candidate.start c' <= Z.of_nat i < Candidate.end_ c' -> c' = c.
Proof.
  intros Hi Hexcl Hspace.
  destruct (scan_covers sentence_excluded sentence_terminators page_text
              0 None i ch ltac:(simpl; lia) Hi Hexcl) as (b & e & Hbe & Hin).
  set (m := {| Re.string_ := page_text; Re.start := b; Re.end_ := e |}).
  assert (Hm : m ∈ Re.finditer sentence_excluded sentence_terminators page_text).
  { unfold Re.finditer. apply list_elem_of_fmap. now exists (b, e). }
  pose proof (finditer_spec _ _ _ _ Hm) as (_ & Hspan & _ & _). simpl in Hspan.
  assert (Hch : ch ∈ Py.strip (Re.group m)).
  { apply strip_keeps; [|exact Hspace].
    unfold Re.group. simpl. apply (slice_lookup _ _ _ i); [lia|lia|exact Hi]. }
  destruct (candidate_of pointer m) as [c|] eqn:Hc.
  2:{ unfold candidate_of in Hc.
      destruct (Py.strip (Re.group m)); [inversion Hch|discriminate Hc]. }
  assert (Hcand : c ∈ candidates page_text pointer)
    by (apply candidates_spec; eauto).
  apply candidate_of_spec in Hc as (Hsn & _ & Hs & He & _). simpl in Hs, He.
  exists c. split; [exact Hcand|]. split; [lia|]. split; [now rewrite Hsn|].
  intros c' Hc' Hspan'.
  destruct (StronglySorted_elem_of _ _ c' c (candidates_ordered page_text pointer)
              Hc' Hcand) as [H|[H|H]]; [exact H|lia|lia].
Qed.

Lemma candidates_cover_page_witness :
  exists c,
    c ∈ candidates (pystr "Rent is due. Pay it!") (pystr "pay") /\
    Candidate.start c <= 13 < Candidate.end_ c /\
    "P"%char ∈ Candidate.snippet c.
Proof.
  destruct (candidates_cover_page (pystr "Rent is due. Pay it!") (pystr "pay")
              13 "P"%char eq_refl eq_refl eq_refl) as (c & H1 & H2 & H3 & _).
  now exists c.
Defined.





(** ** [difflib]: a string compared with itself *)

Lemma chain_b_listed (autojunk : bool) (b : str) (c : ascii) (js : list Z) :
  Difflib.chain_b autojunk b !! c = Some js ->
  StronglySorted Z.lt js /\
  forall j, 0 <= j -> Difflib.getitem b j = Some c -> j ∈ js.
Proof.
  intros Hc.
  pose proof (chain_b_complete false b (or_introl eq_refl) c) as Hfull.
  change (Difflib.chain_b false b) with (Difflib.index_elements 0 b ∅) in Hfull.
  assert (Hidx : Difflib.index_elements 0 b ∅ !! c = Some js).
  { unfold Difflib.chain_b in Hc. destruct (autojunk && _); [|exact Hc].
    now apply map_lookup_filter_Some in Hc as [Hc _]. }
  now rewrite Hidx in Hfull.
Qed.

Lemma indexed_run_succ (a : str) (b2j : gmap ascii (list Z)) (i k : Z) :
  indexed_run a b2j i 1 -> indexed_run a b2j (i - 1) k ->
  indexed_run a b2j i (k + 1).
Proof.
  intros H1 Hk t Ht. destruct (decide (t = 0)) as [->|Hne].
  - apply H1. lia.
  - destruct (Hk (t - 1)) as [c Hc]; [lia|].
    exists c. now replace (i - t) with (i - 1 - (t - 1)) by lia.
Qed.

Lemma indexed_run_pred (a : str) (b2j : gmap ascii (list Z)) (i k : Z) :
  indexed_run a b2j i k -> indexed_run a b2j (i - 1) (k - 1).
Proof.
  intros Hk t Ht. destruct (Hk (t + 1)) as [c Hc]; [lia|].
  exists c. now replace (i - 1 - t) with (i - (t + 1)) by lia.
Qed.

Section DiagonalMatch.
Context (a : str) (b2j : gmap ascii (list Z)).
Hypothesis Hb2j : b2j_ok a b2j.
Hypothesis Hlisted :
  forall c js, b2j !! c = Some js ->
    StronglySorted Z.lt js /\
    forall j, 0 <= j -> Difflib.getitem a j = Some c -> j ∈ js.

Lemma scan_row_diag (i bhi : Z) (j2len : gmap Z Z) (js : list Z) :
  0 <= i ->
  diag_entries a b2j (i - 1) j2len ->
  (forall k, 1 <= k <= i -> indexed_run a b2j (i - 1) k ->
             exists k0, j2len !! (i - 1) = Some k0 /\ k <= k0) ->
  StronglySorted Z.lt js ->
  (forall j, j ∈ js ->
     0 <= j < bhi /\ indexed_run a b2j j 1 /\ indexed_run a b2j i 1) ->
  forall (newj2len : gmap Z Z) (best : Difflib.Block),
    diag_entries a b2j i newj2len ->
    diag_best a b2j i best ->
    i ∈ js \/ diag_done a b2j i newj2len best ->
    let r := Difflib.scan_row i 0 bhi j2len js newj2len best in
    diag_entries a b2j i r.1 /\ diag_best a b2j i r.2 /\
    diag_done a b2j i r.1 r.2.
Proof.
  intros Hi Hprev Hprevdiag Hsorted.
  induction Hsorted as [|j js Hjs IH Hlt];
    intros Hin newj2len best Hnew Hbest Hstate r; subst r.
  - simpl. destruct Hstate as [Hstate|Hstate]; [inversion Hstate|auto].
  - destruct (Hin j) as (Hj & Hrunj & Hruni); [now left|].
    cbn [Difflib.scan_row].
    replace (j <? 0) with false by lia. replace (bhi <=? j) with false by lia.
    set (k := default 0 (j2len !! (j - 1)) + 1).
    assert (Hk : 1 <= k <= i + 1 /\ k <= j + 1 /\
                 indexed_run a b2j i k /\ indexed_run a b2j j k).
    { subst k. destruct (j2len !! (j - 1)) as [k0|] eqn:E; simpl.
      - destruct (Hprev _ _ E) as (H1 & H2 & H3 & H4).
        repeat split; try lia; now apply indexed_run_succ.
      - repeat split; try lia; assumption. }
    destruct Hk as (Hk1 & Hk2 & Hki & Hkj).
    destruct Hbest as (Hdiag & Hsize & Hrows).
    rewrite Forall_forall in Hlt.
    assert (Hnotin : j ∉ js).
    { intros H. specialize (Hlt j H). lia. }
    set (best1 := if best.2 <? k then (i - k + 1, j - k + 1, k) else best).
    assert (Hbest1 : diag_best a b2j i best1 /\ best.2 <= best1.2 /\
                     (j <> i -> best1 = best) /\ (j = i -> k <= best1.2)).
    { destruct (decide (j = i)) as [->|Hne].
      - subst best1. destruct (best.2 <? k) eqn:E; simpl.
        + split; [|split; [lia|split; [contradiction|lia]]].
          split; [simpl; lia|]. split; [simpl; lia|].
          intros i' k' Hi' Hk' Hrun.
          specialize (Hrows i' k' Hi' Hk' Hrun). simpl. lia.
        + split; [|split; [lia|split; [reflexivity|lia]]].
          repeat split; auto.
      - assert (Hle : k <= best.2).
        { destruct (decide (j < i)) as [Hlo|Hhi].
          - apply (Hrows j k); [lia|lia|exact Hkj].
          - destruct Hstate as [Hstate|Hstate].
            + apply elem_of_cons in Hstate as [->|Hstate]; [lia|].
              specialize (Hlt i Hstate). lia.
            + apply (Hstate k); [lia|exact Hki]. }
        subst best1. replace (best.2 <? k) with false by lia.
        split; [|split; [lia|split; [reflexivity|contradiction]]].
        repeat split; auto. }
    destruct Hbest1 as (Hb1 & Hgrow & Hsame & Hcover).
    apply IH.
    + intros j' Hj'. apply Hin. now right.
    + intros j' k'. destruct (decide (j = j')) as [<-|Hne].
      * rewrite lookup_insert_eq. intros [= <-]. auto.
      * rewrite lookup_insert_ne by exact Hne. apply Hnew.
    + exact Hb1.
    + destruct (decide (j = i)) as [->|Hne].
      * right. intros k' Hk' Hrun.
        assert (Hle : k' <= k).
        { destruct (decide (k' = 1)) as [->|Hne]; [lia|].
          destruct (Hprevdiag (k' - 1)) as [k0 [Hk0 Hle]];
            [lia|now apply indexed_run_pred|].
          subst k. rewrite Hk0. simpl. lia. }
        split; [|specialize (Hcover eq_refl); lia].
        exists k. split; [apply lookup_insert_eq|exact Hle].
      * destruct Hstate as [Hstate|Hstate].
        -- apply elem_of_cons in Hstate as [->|Hstate]; [contradiction|now left].
        -- right. intros k' Hk' Hrun.
           destruct (Hstate k' Hk' Hrun) as [[k0 [Hk0 Hle]] Hle'].
           rewrite (Hsame Hne). split; [|exact Hle'].
           exists k0. split; [|exact Hle].
           now rewrite lookup_insert_ne by exact Hne.
Qed.

Lemma scan_rows_diag (n : nat) :
  forall (i0 : Z) (j2len : gmap Z Z) (best best' : Difflib.Block),
    0 <= i0 ->
    diag_entries a b2j (i0 - 1) j2len ->
    (forall k, 1 <= k <= i0 -> indexed_run a b2j (i0 - 1) k ->
               exists k0, j2len !! (i0 - 1) = Some k0 /\ k <= k0) ->
    diag_best a b2j i0 best ->
    Difflib.scan_rows a b2j 0 (Z.of_nat (length a)) (seqZ i0 (Z.of_nat n))
                      j2len best = Some best' ->
    best'.1.1 = best'.1.2.
Proof.
  induction n as [|n IH]; intros i0 j2len best best' Hi0 Hprev Hprevdiag Hbest Hrun.
  - simpl in Hrun. injection Hrun as <-. apply Hbest.
  - rewrite seqZ_cons in Hrun by lia. cbn [Difflib.scan_rows] in Hrun.
    replace (Z.pred (Z.of_nat (S n))) with (Z.of_nat n) in Hrun by lia.
    destruct (Difflib.getitem a i0) as [c|] eqn:Ha; [|discriminate].
    assert (Hrun1 : forall j, Difflib.getitem a j = Some c -> is_Some (b2j !! c) ->
                              indexed_run a b2j j 1).
    { intros j Hj Hc t Ht. exists c. replace (j - t) with j by lia. auto. }
    destruct (scan_row_diag i0 (Z.of_nat (length a)) j2len
                (default [] (b2j !! c)) Hi0 Hprev Hprevdiag) with
      (newj2len := (∅ : gmap Z Z)) (best := best) as (R1 & R2 & R3).
    + destruct (b2j !! c) as [js|] eqn:Hc; [|constructor].
      apply (Hlisted c js Hc).
    + intros j Hj. destruct (b2j !! c) as [js|] eqn:Hc; [|inversion Hj].
      simpl in Hj. destruct (Hb2j c js j Hc Hj) as [Hj0 Hbj].
      split; [|split].
      * split; [exact Hj0|]. rewrite getitem_nonneg in Hbj by lia.
        apply lookup_lt_Some in Hbj. lia.
      * apply Hrun1; [exact Hbj|eauto].
      * apply Hrun1; [exact Ha|eauto].
    + intros j k Hk. now rewrite lookup_empty in Hk.
    + exact Hbest.
    + destruct (b2j !! c) as [js|] eqn:Hc.
      * left. simpl. apply (Hlisted c js Hc); [exact Hi0|exact Ha].
      * right. intros k Hk Hrun'. destruct (Hrun' 0) as [c' [Hc1 Hc2]]; [lia|].
        replace (i0 - 0) with i0 in Hc1 by lia.
        assert (c' = c) as -> by congruence.
        rewrite Hc in Hc2. destruct Hc2 as [? Hc2]. discriminate Hc2.
    + destruct (Difflib.scan_row i0 0 _ j2len _ ∅ best) as [newj2len best1].
      simpl in R1, R2, R3.
      apply (IH (Z.succ i0) newj2len best1 best'); try lia.
      * now replace (Z.succ i0 - 1) with i0 by lia.
      * replace (Z.succ i0 - 1) with i0 by lia. intros k Hk Hrun'.
        apply (R3 k); [lia|exact Hrun'].
      * destruct R2 as (D1 & D2 & D3). repeat split; auto.
        intros i k Hi Hk Hrun'. destruct (decide (i = i0)) as [->|Hne].
        -- apply (R3 k); [lia|exact Hrun'].
        -- apply (D3 i k); [lia|lia|exact Hrun'].
      * exact Hrun.
Qed.

Lemma not_bjunk (c : ascii) : Difflib.isbjunk c = false.
Proof. unfold Difflib.isbjunk, Difflib.bjunk. now apply bool_decide_eq_false_2. Qed.

Lemma extend_left_diag (junk : bool) (fuel : nat) :
  forall p s : Z,
    0 <= p <= Z.of_nat (length a) -> p <= Z.of_nat fuel ->
    Difflib.extend_left fuel a a junk 0 0 (p, p, s)
    = Some (if junk then (p, p, s) else (0, 0, p + s)).
Proof.
  induction fuel as [|fuel IH]; intros p s Hp Hfuel; cbn [Difflib.extend_left].
  - assert (p = 0) as -> by lia. simpl. now destruct junk.
  - destruct (decide (p = 0)) as [->|Hne]; [simpl; now destruct junk|].
    replace ((0 <? p) && (0 <? p)) with true by lia.
    destruct (Difflib.getitem a (p - 1)) as [c|] eqn:Hc.
    2:{ rewrite getitem_nonneg in Hc by lia. apply lookup_ge_None in Hc. lia. }
    rewrite not_bjunk. destruct junk; [reflexivity|]. simpl.
    destruct (ascii_dec c c) as [_|Hcc]; [|contradiction].
    rewrite IH by lia. simpl. f_equal. f_equal. lia.
Qed.

Lemma extend_right_diag (junk : bool) (fuel : nat) :
  forall p s : Z,
    0 <= p -> 0 <= s -> p + s <= Z.of_nat (length a) ->
    Z.of_nat (length a) - (p + s) <= Z.of_nat fuel ->
    Difflib.extend_right fuel a a junk (Z.of_nat (length a))
                         (Z.of_nat (length a)) (p, p, s)
    = Some (if junk then (p, p, s) else (p, p, Z.of_nat (length a) - p)).
Proof.
  induction fuel as [|fuel IH]; intros p s Hp Hs Hlen Hfuel;
    cbn [Difflib.extend_right].
  - replace ((p + s <? Z.of_nat (length a)) && (p + s <? Z.of_nat (length a)))
      with false by lia.
    destruct junk; [reflexivity|]. do 2 f_equal. lia.
  - destruct (decide (p + s = Z.of_nat (length a))) as [Heq|Hne].
    { replace ((p + s <? Z.of_nat (length a)) && (p + s <? Z.of_nat (length a)))
        with false by lia.
      destruct junk; [reflexivity|]. do 2 f_equal. lia. }
    replace ((p + s <? Z.of_nat (length a)) && (p + s <? Z.of_nat (length a)))
      with true by lia.
    destruct (Difflib.getitem a (p + s)) as [c|] eqn:Hc.
    2:{ rewrite getitem_nonneg in Hc by lia. apply lookup_ge_None in Hc. lia. }
    rewrite not_bjunk. destruct junk; [reflexivity|]. simpl.
    destruct (ascii_dec c c) as [_|Hcc]; [|contradiction].
    now rewrite IH by lia.
Qed.

Lemma find_longest_match_diag :
  Difflib.find_longest_match a a b2j 0 (Z.of_nat (length a))
                             0 (Z.of_nat (length a))
  = Some (0, 0, Z.of_nat (length a)).
Proof.
  unfold Difflib.find_longest_match.
  destruct (scan_rows_ok a a b2j 0 0 (Z.of_nat (length a)) Hb2j
              (length a) 0 ∅ (0, 0, 0)) as [best0 [Hscan Hblock]]; try lia.
  { intros j k Hk. now rewrite lookup_empty in Hk. }
  { repeat split; lia. }
  assert (Hdiag : best0.1.1 = best0.1.2).
  { apply (scan_rows_diag (length a) 0 ∅ (0, 0, 0) best0); [lia| | | |exact Hscan].
    - intros j k Hk. now rewrite lookup_empty in Hk.
    - intros k Hk. lia.
    - split; [reflexivity|]. split; [simpl; lia|]. intros i k Hi. lia. }
  rewrite Z.sub_0_r. rewrite Hscan. simpl.
  destruct best0 as [[p q] s]. simpl in Hdiag. subst q.
  destruct Hblock as (H0 & H1 & H2 & _).
  unfold Difflib.extend. simpl.
  rewrite (extend_left_diag false) by lia. simpl.
  rewrite (extend_right_diag false) by lia. simpl.
  rewrite Z.sub_0_r.
  rewrite (extend_right_diag true) by lia. reflexivity.
Qed.

End DiagonalMatch.

Lemma get_matching_blocks_identical (autojunk : bool) (a : str) :
  exists blocks,
    Difflib.get_matching_blocks autojunk a a = Some blocks /\
    Difflib.sum_sizes blocks = Z.of_nat (length a).
Proof.
  unfold Difflib.get_matching_blocks, Difflib.loop_fuel.
  replace (2 * length a + 2)%nat with (S (S (2 * length a))) by lia.
  cbn [Difflib.blocks_loop].
  rewrite (find_longest_match_diag a (Difflib.chain_b autojunk a)
             (chain_b_ok autojunk a) (chain_b_listed autojunk a)).
  destruct (Z.of_nat (length a) =? 0) eqn:E.
  - apply Z.eqb_eq in E. eexists. split; [reflexivity|].
    rewrite E. reflexivity.
  - apply Z.eqb_neq in E.
    replace (0 + Z.of_nat (length a) <? Z.of_nat (length a)) with false by lia.
    simpl. replace (0 + Z.of_nat (length a) =? 0) with false by lia.
    eexists. split; [reflexivity|]. unfold Difflib.sum_sizes. simpl. lia.
Qed.

Lemma ratio_identical (autojunk : bool) (a : str) :
  (Difflib.ratio autojunk a a == 1)%Q.
Proof.
  unfold Difflib.ratio.
  destruct (get_matching_blocks_identical autojunk a) as [blocks [-> ->]].
  unfold Difflib.calculate_ratio.
  destruct (Z.of_nat (length a) + Z.of_nat (length a) =? 0) eqn:E;
    [reflexivity|].
  apply Z.eqb_neq in E.
  unfold Qeq, Qdiv, Qmult, Qinv, inject_Z. simpl.
  destruct (Z.of_nat (length a) + Z.of_nat (length a)) as [|q|q] eqn:Eq;
    simpl; lia.
Qed.

(** X15. A sentence that is the pointer, letter case apart, gets the ratio
    1 of [difflib], whatever characters [difflib] drops as popular, and
    every word of the pointer as a keyword hit: its score is 1 plus a
    tenth of the number of words of the pointer, and no sentence scores
    higher against this pointer. *)
Theorem exact_quote_scores_highest (sentence pointer : str) :
  Py.lower sentence = Py.lower pointer ->
  (compute_similarity sentence pointer
   == 1 + (1 # 10) * inject_Z (Z.of_nat (length (Re.findall_word (Py.lower pointer)))))%Q
  /\ forall other : str,
       (compute_similarity other pointer
        <= compute_similarity sentence pointer)%Q.
Proof.
  intros Hsame.
  assert (Hscore :
    (compute_similarity sentence pointer
     == 1 + (1 # 10) * inject_Z (Z.of_nat (length (Re.findall_word (Py.lower pointer)))))%Q).
  { unfold compute_similarity. rewrite Hsame, ratio_identical.
    replace (keyword_hits sentence pointer)
      with (length (Re.findall_word (Py.lower pointer))); [reflexivity|].
    unfold keyword_hits. rewrite Hsame. symmetry. f_equal. apply filter_all.
    apply Forall_forall. intros t Ht.
    apply findall_word_infix in Ht as [_ Ht]. now apply contains_spec. }
  split; [exact Hscore|]. intros other. rewrite Hscore.
  unfold compute_similarity.
  apply Qplus_le_compat; [apply ratio_bounds|].
  apply Qmult_le_l; [reflexivity|].
  rewrite <- Zle_Qle. apply Nat2Z.inj_le, keyword_hits_le.
Qed.

Lemma exact_quote_scores_highest_witness :
  (compute_similarity (pystr "LATE fee") (pystr "Late Fee") == 12 # 10)%Q /\
  (compute_similarity (pystr "A late fee of 5% applies") (pystr "Late Fee")
   <= compute_similarity (pystr "LATE fee") (pystr "Late Fee"))%Q.
Proof.
  destruct (exact_quote_scores_highest (pystr "LATE fee") (pystr "Late Fee")
              eq_refl) as [H1 H2].
  split; [rewrite H1; reflexivity|apply H2].
Defined.

(** ** The sample PDF *)





